(** * Offline synchronisation engine of the exterior-measure PWA

    A shallow embedding of [SalesforceConnector] (salesforce.ts): the
    conflict resolver, the retry wrapper around a remote call, and the
    coordinator that drains the sync queue.

    JavaScript objects are finite maps from property names to values,
    promises are run to completion one after the other (the code awaits
    every call), and a thrown value is the [Throw] result of a
    computation. *)

From Stdlib Require Import ZArith String.
From stdpp Require Import base list gmap strings sorting pretty.

Set Warnings "-register-all,-clear-no-such-hyp".

(** ** JavaScript values *)

Module Js.

(** The values a record property holds.  Numbers are the integral ones
    (time values are whole milliseconds); a [Date] carries its time value,
    [None] standing for an invalid date. *)
Inductive JsValue : Type :=
| JsUndefined
| JsNull
| JsBool (b : bool)
| JsNumber (n : Z)
| JsString (s : string)
| JsDate (t : option Z)
| JsObject (props : list (string * JsValue)).

(** A plain object: own enumerable properties by name. *)
Abbreviation JsRecord := (gmap string JsValue).

(** [obj.key]: reading a property that is not there gives [undefined]. *)
Definition get (obj : JsRecord) (key : string) : JsValue :=
  default JsUndefined (obj !! key).

(** ToBoolean. *)
Definition truthy (v : JsValue) : bool :=
  match v with
  | JsUndefined | JsNull => false
  | JsBool b => b
  | JsNumber n => negb (n =? 0)%Z
  | JsString s => negb (String.eqb s "")
  | JsDate _ | JsObject _ => true
  end.

(** A time value or the result of arithmetic on time values; [None] is
    [NaN].  Time values are integers below 2^53 in magnitude, and every
    operation the resolver applies to them is exact on those; the only
    comparison it makes is with the constant 1000. *)
Definition Num := option Z.

Definition num_sub (a b : Num) : Num :=
  match a, b with
  | Some x, Some y => Some (x - y)%Z
  | _, _ => None
  end.

(** [Math.abs]. *)
Definition Math_abs (a : Num) : Num := Z.abs <$> a.

(** [a > k]: false as soon as [a] is [NaN]. *)
Definition num_gt (a : Num) (k : Z) : bool :=
  match a with
  | Some x => (k <? x)%Z
  | None => false
  end.

(** TimeClip: a [Date] holds at most 8.64e15 ms either side of the epoch. *)
Definition TimeClip (t : Z) : Num :=
  if (Z.abs t <=? 8640000000000000)%Z then Some t else None.

(** [s.includes(needle)]. *)
Fixpoint includes (s needle : string) : bool :=
  String.prefix needle s ||
  match s with
  | EmptyString => false
  | String _ rest => includes rest needle
  end.

End Js.

Import Js.

(** ** Conflict resolver *)

Module Conflict.

(** The host's date functions: [Date.parse] on a string ([None] when it
    is not a date) and [Date.prototype.toISOString] on a time value. *)
Class DateHost : Type := {
  Date_parse : string → Num;
  toISOString : Z → string
}.

Section Resolver.

Context {host : DateHost}.

(** [new Date(v).getTime()]. *)
Definition getTime (v : JsValue) : Num :=
  match v with
  | JsDate t => t
  | JsString s => Date_parse s
  | JsNumber n => TimeClip n
  | JsBool b => Some (if b then 1 else 0)%Z
  | JsNull => Some 0%Z
  | JsUndefined | JsObject _ => None
  end.

Definition detectConflict (localData remoteData : JsRecord) : bool :=
  if negb (truthy (get localData "lastModified"))
     || negb (truthy (get remoteData "lastModified"))
  then false
  else
    let localTime := getTime (get localData "lastModified") in
    let remoteTime := getTime (get remoteData "lastModified") in
    num_gt (Math_abs (num_sub localTime remoteTime)) 1000.

(** [{ ...localData, ...remoteData }]: the properties of the second
    spread are written over those of the first. *)
Definition spread2 (localData remoteData : JsRecord) : JsRecord :=
  remoteData ∪ localData.

(** [now] is the instant [new Date()] reads when the merge is made. *)
Definition syncWithConflictResolution (now : Z)
    (localData remoteData : JsRecord) : JsRecord :=
  let hasConflict := detectConflict localData remoteData in
  if hasConflict then
    let merged := spread2 localData remoteData in
    <["lastModified" := JsString (toISOString now)]> merged
  else localData.

(** The instant a record's [lastModified] denotes for the resolver: the
    property is there (not [undefined], [null], [0], [false] or the
    empty string) and converts to a valid date. *)
Definition timestampOf (r : JsRecord) : option Z :=
  if truthy (get r "lastModified") then getTime (get r "lastModified")
  else None.

End Resolver.

End Conflict.

(** ** The connector: state, effects and the retry wrapper *)

Module Connector.

(** What a rejected promise carries: [error.errorCode] (jsforce sets it,
    a plain [Error] has none) and [error.message]. *)
Record JsError : Type := mkError {
  errorCode : option string;
  message : string
}.

(** [new Error(msg)]. *)
Definition Error (msg : string) : JsError :=
  {| errorCode := None; message := msg |}.

(** The value [throw lastError] raises when nothing was assigned to
    [lastError]. *)
Definition undefinedThrown : JsError := Error "undefined".

Inductive Result (A : Type) : Type :=
| Ok (a : A)
| Throw (e : JsError).
Arguments Ok {A} a.
Arguments Throw {A} e.

Record SalesforceConfig : Type := mkConfig {
  loginUrl : option string;
  username : string;
  password : string;
  securityToken : string
}.

Record SyncQueueItem : Type := mkItem {
  id : Z;
  type : string;
  operation : string;
  data : JsRecord;
  attempts : Z;
  lastAttempt : option Z;
  error : option string;
  createdAt : Z
}.

(** A call on [conn.sobject(name)]. *)
Inductive SfRequest : Type :=
| SfUpsert (sobject : string) (record : JsRecord) (extIdField : string)
| SfCreate (sobject : string) (record : JsRecord).

(** What such a call resolves to; [result_errors] is the text
    [JSON.stringify(result.errors)] gives. *)
Record SaveResult : Type := mkSaveResult {
  result_success : bool;
  result_id : string;
  result_errors : string
}.

(** The remote system and the host, as the connector sees them: a state
    the calls read and change, the clock, and the jsforce calls, each
    resolving or rejecting. *)
Class RemoteWorld : Type := {
  World : Type;
  clock : World → Z;
  jsforce_login : string → string → string → World → Result unit * World;
  jsforce_request : SfRequest → World → Result SaveResult * World;
  elapse : Z → World → World
}.

(** What the connector did, in order (kept for the proofs; the code has
    no such log). *)
Inductive Event : Type :=
| EvSyncItem (item : SyncQueueItem)
| EvOperation
| EvLogin (url user secret : string)
| EvRequest (req : SfRequest)
| EvTimeout (ms : Z).

Section WithWorld.

Context {remote : RemoteWorld}.
Context {host : Conflict.DateHost}.

(** The [SalesforceConnector] instance: [this.conn] (is it set),
    [this.config], with the world it talks to. *)
Record Connector : Type := mkConnector {
  conn : bool;
  config : option SalesforceConfig;
  world : World;
  trace : list Event
}.

(** An async method of the connector, awaited. *)
Definition M (A : Type) : Type := Connector → Result A * Connector.

Definition ret {A} (a : A) : M A := λ c, (Ok a, c).
Definition throw {A} (e : JsError) : M A := λ c, (Throw e, c).
Definition bind {A B} (m : M A) (k : A → M B) : M B :=
  λ c, match m c with
       | (Ok a, c') => k a c'
       | (Throw e, c') => (Throw e, c')
       end.
(** [try { m } catch (error) { handler }]. *)
Definition tryCatch {A} (m : M A) (handler : JsError → M A) : M A :=
  λ c, match m c with
       | (Ok a, c') => (Ok a, c')
       | (Throw e, c') => handler e c'
       end.

Definition log (ev : Event) : M unit :=
  λ c, (Ok tt, mkConnector (conn c) (config c) (world c) (trace c ++ [ev])).
Definition getConn : M bool := λ c, (Ok (conn c), c).
Definition getConfig : M (option SalesforceConfig) := λ c, (Ok (config c), c).
Definition setConfig (cfg : SalesforceConfig) : M unit :=
  λ c, (Ok tt, mkConnector (conn c) (Some cfg) (world c) (trace c)).
Definition setConn : M unit :=
  λ c, (Ok tt, mkConnector true (config c) (world c) (trace c)).
(** A call into the world. *)
Definition call {A} (f : World → Result A * World) : M A :=
  λ c, let '(r, w) := f (world c) in
       (r, mkConnector (conn c) (config c) w (trace c)).
(** [new Date()], as a time value. *)
Definition newDate : M Z := λ c, (Ok (clock (world c)), c).

#[local] Instance M_ret : MRet M := @ret.
#[local] Instance M_bind : MBind M := λ A B k m, bind m k.

(** [await new Promise(resolve => setTimeout(resolve, ms))]. *)
Definition sleep (ms : Z) : M unit :=
  log (EvTimeout ms);; call (λ w, (Ok tt, elapse ms w)).

(** [a || b] on an optional string: [b] when [a] is missing or empty. *)
Definition orDefault (a : option string) (b : string) : string :=
  match a with
  | Some s => if String.eqb s "" then b else s
  | None => b
  end.

Definition initialize (cfg : SalesforceConfig) : M unit :=
  setConfig cfg;;
  setConn;;
  let url := orDefault (loginUrl cfg) "https://test.salesforce.com" in
  let secret := password cfg +:+ securityToken cfg in
  tryCatch
    (log (EvLogin url (username cfg) secret);;
     call (jsforce_login url (username cfg) secret))
    (λ error, throw error).

Definition retryDelays : list Z := [1000; 2000; 4000; 8000; 16000]%Z.

(** [error.errorCode?.includes('VALIDATION')]. *)
Definition isValidationError (e : JsError) : bool :=
  match errorCode e with
  | Some code => includes code "VALIDATION"
  | None => false
  end.

(** [throw lastError]. *)
Definition throwLast {T} (lastError : option JsError) : M T :=
  match lastError with
  | Some e => throw e
  | None => throw undefinedThrown
  end.

(** [await operation()], each invocation noted in the trace. *)
Definition invoke {T} (operation : M T) : M T :=
  log EvOperation;; operation.

(** The [for] loop of [retryOperation] from iteration [attempt] on, with
    [remaining] iterations left to run and the current [lastError].  In
    the [catch] block the re-authentication needs both the error code
    [INVALID_SESSION_ID] and a configuration; short of either, control
    falls through to the validation test and then to the wait. *)
Fixpoint retryLoop {T} (operation : M T) (remaining attempt : nat)
    (lastError : option JsError) : M T :=
  match remaining with
  | O => throwLast lastError
  | S remaining' =>
      tryCatch (invoke operation) (λ error,
        cfg ← getConfig;
        match (if decide (errorCode error = Some "INVALID_SESSION_ID")
               then cfg else None) with
        | Some c =>
            initialize c;;
            invoke operation
        | None =>
            if isValidationError error then throw error
            else
              (if decide (attempt < length retryDelays - 1)
               then sleep (retryDelays !!! attempt)
               else mret tt);;
              retryLoop operation remaining' (S attempt) (Some error)
        end)
  end.

Definition retryOperation {T} (operation : M T) : M T :=
  retryLoop operation (length retryDelays) 0 None.

(** [new Date().toISOString()]. *)
Definition nowISO : M JsValue :=
  t ← newDate; mret (JsString (Conflict.toISOString t)).

(** [await this.conn.sobject(...)...]: one request to the remote. *)
Definition request (req : SfRequest) : M SaveResult :=
  log (EvRequest req);; call (jsforce_request req).

Definition upsertProperty (property : JsRecord) : M string :=
  retryOperation (
    connected ← getConn;
    if negb connected then throw (Error "Not connected to Salesforce")
    else
      stamp ← nowISO;
      result ← request (SfUpsert "Property__c" (list_to_map [
        ("External_Id__c", get property "id");
        ("Name", get property "address");
        ("Street__c", get property "street");
        ("City__c", get property "city");
        ("State__c", get property "state");
        ("Zip__c", get property "zip");
        ("Square_Footage__c", get property "squareFootage");
        ("Last_Modified__c", stamp)
      ]) "External_Id__c");
      if negb (result_success result) then
        throw (Error ("Failed to upsert property: " +:+ result_errors result))
      else mret (result_id result)).

Definition upsertQuote (quote : JsRecord) : M string :=
  retryOperation (
    connected ← getConn;
    if negb connected then throw (Error "Not connected to Salesforce")
    else
      stamp ← nowISO;
      result ← request (SfUpsert "Quote__c" (list_to_map [
        ("External_Id__c", get quote "id");
        ("Property__r",
           JsObject [("External_Id__c", get quote "propertyId")]);
        ("Total_Price__c", get quote "totalPrice");
        ("Labor_Cost__c", get quote "laborCost");
        ("Material_Cost__c", get quote "materialCost");
        ("Substrate_Type__c", get quote "substrateType");
        ("Access_Type__c", get quote "accessType");
        ("Include_Trim__c", get quote "includeTrim");
        ("Include_Gutters__c", get quote "includeGutters");
        ("Status__c", if truthy (get quote "status")
                      then get quote "status" else JsString "Draft");
        ("Created_Date__c", get quote "createdAt");
        ("Last_Modified__c", stamp)
      ]) "External_Id__c");
      if negb (result_success result) then
        throw (Error ("Failed to upsert quote: " +:+ result_errors result))
      else mret (result_id result)).

Definition uploadAttachment (attachment : JsRecord) : M string :=
  retryOperation (
    connected ← getConn;
    if negb connected then throw (Error "Not connected to Salesforce")
    else
      result ← request (SfCreate "Attachment" (list_to_map [
        ("ParentId", get attachment "parentId");
        ("Name", get attachment "name");
        ("Body", get attachment "body");
        ("ContentType", get attachment "contentType")
      ]));
      if negb (result_success result) then
        throw (Error ("Failed to upload attachment: "
                      +:+ result_errors result))
      else mret (result_id result)).

Definition syncItem (item : SyncQueueItem) : M string :=
  log (EvSyncItem item);;
  if String.eqb (type item) "property" then upsertProperty (data item)
  else if String.eqb (type item) "quote" then upsertQuote (data item)
  else if String.eqb (type item) "attachment" then
    uploadAttachment (data item)
  else if String.eqb (type item) "bid" then upsertQuote (data item)
  else throw (Error ("Unknown sync item type: " +:+ type item)).

End WithWorld.

End Connector.

Import Connector.

(** ** The queue store *)

Module Db.

(** Modelled from the spec: the [db] module (the Dexie table
    [db.syncQueue]) is not among the sources; the table is the list of
    its rows, each under its own [id]. *)
Abbreviation Table := (list SyncQueueItem).

(** Modelled from the spec: [createdAt] is the natural ordering key of
    the store (section 3), oldest first. *)
Definition createdAt_le (a b : SyncQueueItem) : Prop :=
  (createdAt a ≤ createdAt b)%Z.

#[global] Instance createdAt_le_dec : RelDecision createdAt_le :=
  λ a b, decide (createdAt a ≤ createdAt b)%Z.

(** The order of the index the source queries, [where('attempts')]: an
    index lists the rows by its key, here [attempts], and rows of equal
    key by their primary key, here [id]. *)
Definition index_le (a b : SyncQueueItem) : Prop :=
  (attempts a < attempts b)%Z ∨ (attempts a = attempts b ∧ id a ≤ id b)%Z.

#[global] Instance index_le_dec : RelDecision index_le :=
  λ a b, decide ((attempts a < attempts b)%Z
                 ∨ (attempts a = attempts b ∧ id a ≤ id b)%Z).

(** Modelled from the spec: the id the store assigns on [add] is
    unique; here the next value of an auto-incremented key. *)
Definition nextId (tbl : Table) : Z :=
  (1 + foldr Z.max 0 (id <$> tbl))%Z.

(** Modelled from the spec: [enqueue] of section 4.1, called as
    [db.syncQueue.add({type, operation, data, attempts, createdAt})],
    appends a new row. *)
Definition add (ty op : string) (payload : JsRecord) (att created : Z)
    (tbl : Table) : Table :=
  tbl ++ [mkItem (nextId tbl) ty op payload att None None created].

(** Modelled from the spec: [dequeueEligible] of section 4.1, called as
    [db.syncQueue.where('attempts').below(bound)] (with [.limit(n)] when
    [limit] is [Some n]) and [.toArray()]: the rows with [attempts] below
    the bound, capped at the limit if one is given; a snapshot, the table
    is not changed.  The source sorts nothing itself and names no other
    key: the rows come in the order of the index it queries, not in that
    of [createdAt]. *)
Definition where_attempts_below (bound : Z) (limit : option nat)
    (tbl : Table) : list SyncQueueItem :=
  let eligible := filter (λ it, attempts it < bound)%Z tbl in
  let ordered := merge_sort index_le eligible in
  match limit with
  | Some n => take n ordered
  | None => ordered
  end.

(** Modelled from the spec: [markSucceeded] of section 4.1, called as
    [db.syncQueue.delete(key)]: removes the row, does nothing when there
    is none. *)
Definition delete (key : Z) (tbl : Table) : Table :=
  filter (λ it, id it ≠ key) tbl.

(** Modelled from the spec: [markFailed] of section 4.1, called as
    [db.syncQueue.update(key, {attempts, lastAttempt, error})]: writes
    the three properties on the row of that id. *)
Definition update (key : Z) (att : Z) (last : Z) (err : string)
    (tbl : Table) : Table :=
  (λ it, if decide (id it = key)
         then mkItem (id it) (type it) (operation it) (data it)
                     att (Some last) (Some err) (createdAt it)
         else it) <$> tbl.

(** Modelled from the spec: the counts behind [stats] of section 4.1,
    [db.syncQueue.count()] and
    [db.syncQueue.where('attempts').aboveOrEqual(bound).count()]. *)
Definition count (tbl : Table) : nat := length tbl.
Definition count_attempts_aboveOrEqual (bound : Z) (tbl : Table) : nat :=
  length (filter (λ it, bound ≤ attempts it)%Z tbl).

End Db.

(** ** The coordinator: draining the queue *)

Module Coordinator.

(** [{ item, error: error.message }]. *)
Definition ErrorEntry : Type := SyncQueueItem * string.

(** The object a drain returns; [errors] is [None] when the object has no
    such property. *)
Record SyncResults : Type := mkResults {
  total : nat;
  success : nat;
  failed : nat;
  errors : option (list ErrorEntry)
}.

Record QueueStatus : Type := mkStatus {
  status_total : nat;
  status_pending : nat;
  status_failed : nat
}.

Section WithWorld.

Context {remote : RemoteWorld}.
Context {host : Conflict.DateHost}.

(** The two module-level singletons: the table [db.syncQueue] and the
    connector [salesforce]. *)
Record State : Type := mkState {
  syncQueue : Db.Table;
  salesforce : Connector
}.

Definition queueForSync (ty op : string) (payload : JsRecord)
    (st : State) : State :=
  let created := clock (world (salesforce st)) in
  mkState (Db.add ty op payload 0 created (syncQueue st)) (salesforce st).

(** The [for (const item of items)] loop of [processSyncQueue]. *)
Fixpoint processItems (items : list SyncQueueItem) (results : SyncResults)
    (st : State) : SyncResults * State :=
  match items with
  | [] => (results, st)
  | item :: rest =>
      match syncItem item (salesforce st) with
      | (Ok _, sf) =>
          let tbl := Db.delete (id item) (syncQueue st) in
          let results := mkResults (total results) (S (success results))
                           (failed results) (errors results) in
          processItems rest results (mkState tbl sf)
      | (Throw error, sf) =>
          let results := mkResults (total results) (success results)
                           (S (failed results))
                           ((λ errs, errs ++ [(item, message error)])
                              <$> errors results) in
          let tbl := Db.update (id item) (attempts item + 1)
                       (clock (world sf)) (message error) (syncQueue st) in
          processItems rest results (mkState tbl sf)
      end
  end.

Definition processSyncQueue (st : State) : SyncResults * State :=
  let items := Db.where_attempts_below 5 None (syncQueue st) in
  let results := mkResults (length items) 0 0 (Some []) in
  processItems items results st.

(** The loop of [processSyncQueueBatch]: as above, without the push
    onto [results.errors]. *)
Fixpoint processItemsBatch (items : list SyncQueueItem)
    (results : SyncResults) (st : State) : SyncResults * State :=
  match items with
  | [] => (results, st)
  | item :: rest =>
      match syncItem item (salesforce st) with
      | (Ok _, sf) =>
          let tbl := Db.delete (id item) (syncQueue st) in
          let results := mkResults (total results) (S (success results))
                           (failed results) (errors results) in
          processItemsBatch rest results (mkState tbl sf)
      | (Throw error, sf) =>
          let results := mkResults (total results) (success results)
                           (S (failed results)) (errors results) in
          let tbl := Db.update (id item) (attempts item + 1)
                       (clock (world sf)) (message error) (syncQueue st) in
          processItemsBatch rest results (mkState tbl sf)
      end
  end.

(** [batchSize] is [None] when the caller leaves the argument out. *)
Definition processSyncQueueBatch (batchSize : option nat) (st : State)
    : SyncResults * State :=
  let batchSize := default 20 batchSize in
  let items :=
    Db.where_attempts_below 5 (Some batchSize) (syncQueue st) in
  let results := mkResults (length items) 0 0 None in
  processItemsBatch items results st.

Definition getQueueStatus (st : State) : QueueStatus :=
  let total := Db.count (syncQueue st) in
  let failed := Db.count_attempts_aboveOrEqual 5 (syncQueue st) in
  let pending := total - failed in
  mkStatus total pending failed.

End WithWorld.

End Coordinator.

Import Coordinator.

(** ** Reading a trace *)

Module Trace.

(** The items handed to [syncItem], in order. *)
Definition synced (tr : list Event) : list SyncQueueItem :=
  omap (λ ev, match ev with EvSyncItem it => Some it | _ => None end) tr.

(** What the retry wrapper itself does: invoking the operation, logging
    in again, waiting.  The requests an operation makes are its own. *)
Definition isWrapperEvent (ev : Event) : bool :=
  match ev with
  | EvOperation | EvLogin _ _ _ | EvTimeout _ => true
  | EvSyncItem _ | EvRequest _ => false
  end.

Definition wrapperTrace (tr : list Event) : list Event :=
  filter (λ ev, isWrapperEvent ev = true) tr.

Section WithWorld.

Context {remote : RemoteWorld}.
Context {host : Conflict.DateHost}.

(** The connector after one more event. *)
Definition logged (ev : Event) (c : Connector) : Connector :=
  mkConnector (conn c) (config c) (world c) (trace c ++ [ev]).

(** The connector after waiting [ms]. *)
Definition slept (ms : Z) (c : Connector) : Connector :=
  mkConnector (conn c) (config c) (elapse ms (world c))
              (trace c ++ [EvTimeout ms]).

(** The connector as [retryLoop] leaves it between iteration [attempt]
    and the next, when the attempt failed and is to be repeated. *)
Definition backedOff (attempt : nat) (c : Connector) : Connector :=
  if decide (attempt < length retryDelays - 1)
  then slept (retryDelays !!! attempt) c
  else c.

(** A computation that hands no item to [syncItem]. *)
Definition quiet {A} (m : M A) : Prop :=
  ∀ c, synced (trace (m c).2) = synced (trace c).

(** A remote that accepts every request. *)
Definition alwaysSucceeds : Prop :=
  ∀ req w, ∃ res w',
    jsforce_request req w = (Ok res, w') ∧ result_success res = true.

(** What [syncItem] makes of each item in turn, the connector passing
    from one item to the next. *)
Fixpoint deliveries (items : list SyncQueueItem) (c : Connector)
    : list (SyncQueueItem * Result string) :=
  match items with
  | [] => []
  | item :: rest =>
      (item, (syncItem item c).1) :: deliveries rest (syncItem item c).2
  end.




End WithWorld.

End Trace.

Import Trace.

(** ** The error taxonomy of the wrapper *)

Module Taxonomy.

Definition isAuthError (e : JsError) : bool :=
  bool_decide (errorCode e = Some "INVALID_SESSION_ID").

(** Neither an authentication nor a validation failure. *)
Definition isTransientError (e : JsError) : bool :=
  negb (isAuthError e) && negb (isValidationError e).

(** The entity types [syncItem] has a case for. *)
Definition knownType (ty : string) : bool :=
  String.eqb ty "property" || String.eqb ty "quote"
  || String.eqb ty "attachment" || String.eqb ty "bid".

End Taxonomy.

Import Taxonomy.

(** ** Concrete hosts, worlds and queues *)

Module Fixture.

(** A host that writes a time value in decimal and reads no string as a
    date. *)
Definition host : Conflict.DateHost :=
  {| Conflict.Date_parse := λ _, None;
     Conflict.toISOString := λ t, pretty t |}.

(** A remote that accepts every login and every request. *)
Definition alwaysUp : RemoteWorld :=
  {| World := Z;
     clock := λ w, w;
     jsforce_login := λ _ _ _ w, (Ok tt, w);
     jsforce_request := λ _ w, (Ok (mkSaveResult true "sf-1" "[]"), w);
     elapse := λ ms w, (w + ms)%Z |}.

(** A remote that answers from a script: each login and each request
    takes the next scripted reply, and succeeds once the script is
    over. *)
Record Script : Type := mkScript {
  time : Z;
  logins : list (Result unit);
  replies : list (Result SaveResult)
}.

Definition scripted : RemoteWorld :=
  {| World := Script;
     clock := time;
     jsforce_login := λ _ _ _ w,
       match logins w with
       | r :: rest => (r, mkScript (time w) rest (replies w))
       | [] => (Ok tt, w)
       end;
     jsforce_request := λ _ w,
       match replies w with
       | r :: rest => (r, mkScript (time w) (logins w) rest)
       | [] => (Ok (mkSaveResult true "sf-1" "[]"), w)
       end;
     elapse := λ ms w, mkScript (time w + ms)%Z (logins w) (replies w) |}.

Definition sessionExpired : JsError :=
  mkError (Some "INVALID_SESSION_ID") "Session expired or invalid".
Definition loginRefused : JsError :=
  mkError (Some "INVALID_LOGIN") "Invalid username, password, security token".
Definition fieldRejected : JsError :=
  mkError (Some "FIELD_CUSTOM_VALIDATION_EXCEPTION") "Price must be positive".
Definition networkDown : JsError :=
  mkError (Some "ECONNRESET") "socket hang up".

Definition testOrg : SalesforceConfig :=
  mkConfig None "estimator@example.com" "pw" "token".

(** A connected, configured connector over a scripted remote. *)
Definition connectedTo (w : Script) : @Connector scripted :=
  @mkConnector scripted true (Some testOrg) w [].

(** The operation [uploadAttachment] wraps, for an empty attachment. *)
Definition attach : @M scripted string :=
  @bind scripted _ _
    (@request scripted (SfCreate "Attachment" ∅))
    (λ result, @ret scripted _ (result_id result)).

(** An operation that rejects on every call. *)
Definition alwaysRejects : @M scripted string :=
  @throw scripted _ networkDown.

Definition bid1 : SyncQueueItem :=
  mkItem 1 "bid" "create" {[ "id" := JsString "local-1" ]} 0 None None 7200000.
Definition quote2 : SyncQueueItem :=
  mkItem 2 "quote" "update" {[ "id" := JsString "local-2" ]} 1 None None
         3600000.
Definition spent3 : SyncQueueItem :=
  mkItem 3 "bid" "create" {[ "id" := JsString "local-3" ]} 5 None
         (Some "socket hang up") 60000.

Definition queue : Db.Table := [bid1; quote2; spent3].

(** The queue with a connector whose remote is always up. *)
Definition online : @State alwaysUp :=
  @mkState alwaysUp queue (@mkConnector alwaysUp true None 172800000%Z []).

(** The queue with a remote that accepts the first request and rejects
    the second as invalid. *)
Definition oneRejected : @State scripted :=
  @mkState scripted queue
    (connectedTo (mkScript 172800000 []
       [Ok (mkSaveResult true "sf-1" "[]"); Throw fieldRejected])).

(** Scenario C: a bid queued every six hours over 48 hours offline. *)
Definition sixHours : Z := 21600000.

Definition later (ms : Z) (st : @State alwaysUp) : @State alwaysUp :=
  @mkState alwaysUp (@syncQueue alwaysUp st)
    (@mkConnector alwaysUp
       (@conn alwaysUp (@salesforce alwaysUp st))
       (@config alwaysUp (@salesforce alwaysUp st))
       (@world alwaysUp (@salesforce alwaysUp st) + ms)%Z
       (@trace alwaysUp (@salesforce alwaysUp st))).

Fixpoint offlineBids (n : nat) (st : @State alwaysUp) : @State alwaysUp :=
  match n with
  | O => st
  | S n' =>
      offlineBids n'
        (later sixHours (@queueForSync alwaysUp "bid" "create" ∅ st))
  end.

Definition backOnline : @State alwaysUp :=
  offlineBids 8 (@mkState alwaysUp [] (@mkConnector alwaysUp true None 0%Z [])).

(** A local and a remote version of a bid, an hour apart. *)
Definition localBid : JsRecord :=
  {[ "id" := JsString "local-123";
     "salesforceId" := JsString "sf-123";
     "totalPrice" := JsNumber 1000;
     "lastModified" := JsDate (Some 1704103200000%Z) ]}.
Definition remoteBid : JsRecord :=
  {[ "id" := JsString "sf-123";
     "totalPrice" := JsNumber 1200;
     "lastModified" := JsDate (Some 1704106800000%Z) ]}.

End Fixture.

(** ** The rest of the connector *)

Module Rest.

(** What a trace shows of the work done: how often an operation was
    invoked, how often the connector logged in, the waits and the
    requests, in order. *)
Definition invocations (tr : list Event) : nat :=
  length (omap (λ ev, match ev with EvOperation => Some tt | _ => None end)
               tr).

Definition logins (tr : list Event) : nat :=
  length (omap (λ ev, match ev with EvLogin _ _ _ => Some tt | _ => None end)
               tr).

Definition timeouts (tr : list Event) : list Z :=
  omap (λ ev, match ev with EvTimeout ms => Some ms | _ => None end) tr.

Definition requests (tr : list Event) : list SfRequest :=
  omap (λ ev, match ev with EvRequest req => Some req | _ => None end) tr.

(** The sum of a list of waits. *)
Definition totalWait (ms : list Z) : Z := foldr Z.add 0%Z ms.

Section WithWorld.

Context {remote : RemoteWorld}.
Context {host : Conflict.DateHost}.

#[local] Existing Instances M_ret M_bind.

(** [create(objectType, data)]: one call on the remote, outside the retry
    wrapper. *)
Definition create (objectType : string) (d : JsRecord) : M SaveResult :=
  connected ← getConn;
  if negb connected then throw (Error "Not connected to Salesforce")
  else
    result ← request (SfCreate objectType d);
    if negb (result_success result) then
      throw (Error ("Failed to create " +:+ objectType +:+ ": "
                    +:+ result_errors result))
    else mret result.

(** The [for] loop of [retryWithExponentialBackoff] from iteration
    [attempt] on, [remaining] iterations left, the current [delay]; falling
    off the loop resolves with [undefined], here [None]. *)
Fixpoint backoffLoop {T} (operation : M T) (remaining : nat)
    (attempt maxRetries delay : Z) : M (option T) :=
  match remaining with
  | O => mret None
  | S remaining' =>
      tryCatch (v ← invoke operation; mret (Some v)) (λ error,
        if (attempt =? maxRetries - 1)%Z then throw error
        else
          sleep delay;;
          backoffLoop operation remaining' (attempt + 1)%Z maxRetries
                      (delay * 2)%Z)
  end.

(** The connector after [n] invocations that were rejected, each
    followed by its wait, the first of [delay] and each next twice as
    long. *)
Fixpoint backedOffTimes {T} (operation : M T) (n : nat) (delay : Z)
    (c : Connector) : Connector :=
  match n with
  | O => c
  | S n' =>
      backedOffTimes operation n' (delay * 2)%Z
        (slept delay (invoke operation c).2)
  end.

(** [maxRetries] and [initialDelay] are the two properties of
    [options]. *)
Definition retryWithExponentialBackoff {T} (operation : M T)
    (maxRetries initialDelay : Z) : M (option T) :=
  backoffLoop operation (Z.to_nat maxRetries) 0%Z maxRetries initialDelay.

(** The wait of [processSyncQueueWithRetry], on the timer of the
    connector's world. *)
Definition sleepState (ms : Z) (st : State) : State :=
  mkState (syncQueue st) (sleep ms (salesforce st)).2.

(** The [while] loop of [processSyncQueueWithRetry], [remaining]
    iterations left.  [drain n] is what [this.processSyncQueue] does when
    the loop calls it for the [n+1]-th time, a call on the state of the
    instance that resolves or rejects: the method is looked up on each
    call (the test suite puts one in its place that rejects twice and then
    resolves), and in the source the awaits on the store are outside every
    [try].  [attempt] counts the calls made so far. *)
Fixpoint withRetryLoop (drain : nat → State → Result SyncResults * State)
    (remaining : nat) (attempt maxRetries retryDelay : Z)
    (lastError : option JsError) (st : State)
    : Result SyncResults * State :=
  match remaining with
  | O => (Throw (default undefinedThrown lastError), st)
  | S remaining' =>
      match drain (Z.to_nat attempt) st with
      | (Ok results, st') => (Ok results, st')
      | (Throw error, st') =>
          let attempt := (attempt + 1)%Z in
          let st' := if (attempt <? maxRetries)%Z
                     then sleepState retryDelay st' else st' in
          withRetryLoop drain remaining' attempt maxRetries retryDelay
                        (Some error) st'
      end
  end.

(** [maxRetries] and [retryDelay] are the two properties of [options]. *)
Definition processSyncQueueWithRetry
    (drain : nat → State → Result SyncResults * State)
    (maxRetries retryDelay : Z) (st : State)
    : Result SyncResults * State :=
  withRetryLoop drain (Z.to_nat maxRetries) 0%Z maxRetries retryDelay None st.

(** The instance after the first [n] calls of the drain, all rejected,
    each followed by the wait. *)
Fixpoint rejectedRounds (drain : nat → State → Result SyncResults * State)
    (retryDelay : Z) (n : nat) (st : State) : State :=
  match n with
  | O => st
  | S n' =>
      sleepState retryDelay
        (drain n' (rejectedRounds drain retryDelay n' st)).2
  end.

End WithWorld.

End Rest.

Import Rest.

(** ** Log rotation of the load-test runner *)

Module LogRotation.

Definition MAX_LOG_SIZE : Z := (1024 * 1024)%Z.

(** The two files, by their names in the directory above the script. *)
Definition LOG_FILE : string := "k6-output.log".
Definition ROTATE_LOG_FILE : string := "k6-output.old.log".

Section Files.

(** A file as the file system holds it, with the size [fs.statSync]
    reports for it. *)
Variable File : Type.
Variable size : File → Z.

(** The calls that can throw although the file is there, for want of a
    permission or because the name is in use: whether [statSync],
    [unlinkSync] and [renameSync] throw on the files as they are. *)
Variable statSync_throws : gmap string File → bool.
Variable unlinkSync_throws : gmap string File → bool.
Variable renameSync_throws : gmap string File → bool.

(** [rotateLogs()] on the files of the directory.  Whatever throws inside
    the [try] ends the function, the [catch] being empty: [statSync] when
    the log is not there, and each of the three calls when the system
    refuses it; what was done before stays done. *)
Definition rotateLogs (fs : gmap string File) : gmap string File :=
  match fs !! LOG_FILE with
  | Some stats =>
      if statSync_throws fs then fs
      else if (MAX_LOG_SIZE <? size stats)%Z then
        let unlinked :=
          if decide (is_Some (fs !! ROTATE_LOG_FILE))
          then (if unlinkSync_throws fs then None
                else Some (delete ROTATE_LOG_FILE fs))
          else Some fs in
        match unlinked with
        | Some fs =>
            if renameSync_throws fs then fs
            else <[ROTATE_LOG_FILE := stats]> (delete LOG_FILE fs)
        | None => fs
        end
      else fs
  | None => fs
  end.

End Files.

End LogRotation.

(** ** More connectors and queues *)

Module MoreFixture.

Import Fixture.

(** A connector on which [initialize] was never called. *)
Definition unconnected : @Connector scripted :=
  @mkConnector scripted false None (mkScript 0 [] []) [].

(** A configured connector that was never given a configuration to log
    in again with. *)
Definition unconfigured (w : Script) : @Connector scripted :=
  @mkConnector scripted true None w [].

(** An operation that always finds the session expired. *)
Definition alwaysExpired : @M scripted string :=
  @throw scripted _ sessionExpired.

Definition invoice4 : SyncQueueItem :=
  mkItem 4 "invoice" "create" ∅ 0 None None 9000000.

(** A queue whose first delivery is rejected by the network, five times
    over, and whose second goes through. *)
Definition flaky : @State scripted :=
  @mkState scripted [bid1; quote2; spent3]
    (connectedTo (mkScript 0 []
       [Throw networkDown; Throw networkDown; Throw networkDown;
        Throw networkDown; Throw networkDown])).

(** The queue of the other fixtures with no connection at all, and a
    queue of one spent row. *)
Definition stranded : @State scripted :=
  @mkState scripted [bid1; quote2; spent3] unconnected.

Definition spentOnly : @State scripted :=
  @mkState scripted [spent3] (connectedTo (mkScript 0 [] [])).

(** Files by their size alone. *)
Definition bigLog : gmap string Z :=
  {[ LogRotation.LOG_FILE := 2000000%Z;
     LogRotation.ROTATE_LOG_FILE := 5%Z;
     "summary.json" := 10%Z ]}.

(** A file system on which nothing is refused, and one on which no file
    can be renamed. *)
Definition permissive : gmap string Z → bool := λ _, false.
Definition readOnly : gmap string Z → bool := λ _, true.





(** The same queue before a scripted remote that rejects the first
    request as invalid. *)
Definition firstRejected : @State scripted :=
  @mkState scripted queue
    (connectedTo (mkScript 172800000 [] [Throw fieldRejected])).

(** A remote that is down: it rejects every request, counting them, and
    its clock runs. *)
Record Outage : Type := mkOutage {
  outage_time : Z;
  refused : nat
}.

Definition down : RemoteWorld :=
  {| World := Outage;
     clock := outage_time;
     jsforce_login := λ _ _ _ w, (Ok tt, w);
     jsforce_request := λ _ w,
       (Throw networkDown, mkOutage (outage_time w) (S (refused w)));
     elapse := λ ms w, mkOutage (outage_time w + ms)%Z (refused w) |}.

(** The operation [uploadAttachment] wraps, for an empty attachment, on
    that remote. *)
Definition attachWhenDown : @M down string :=
  @bind down _ _
    (@request down (SfCreate "Attachment" ∅))
    (λ result, @ret down _ (result_id result)).

(** The drain the test suite puts in the place of [processSyncQueue]: it
    throws on its first two calls and resolves on the third. *)
Definition mockProcessSyncQueue (n : nat) (st : @State scripted)
    : Result SyncResults * @State scripted :=
  if decide (n < 2) then (Throw (Error "Network error"), st)
  else (Ok (mkResults 2 2 0 None), st).

(** The real drain on every call. *)
Definition realDrain (n : nat) (st : @State scripted)
    : Result SyncResults * @State scripted :=
  (Ok (@processSyncQueue scripted host st).1,
   (@processSyncQueue scripted host st).2).

End MoreFixture.

(** * Properties *)

(** ** Conflict resolver *)

Module ConflictFacts.

Import Conflict.

Section Resolver.

Context {host : DateHost}.

Lemma timestampOf_Some (r : JsRecord) (t : Z) :
  timestampOf r = Some t ↔
  truthy (get r "lastModified") = true ∧
  getTime (get r "lastModified") = Some t.
Proof.
  unfold timestampOf. destruct (truthy _); naive_solver.
Qed.

(** On a [Date] the instant is its time value; without the property there
    is none. *)
Lemma timestampOf_Date (r : JsRecord) (t : option Z) :
  r !! "lastModified" = Some (JsDate t) → timestampOf r = t.
Proof. intros Hr. unfold timestampOf, get. by rewrite Hr. Qed.

Lemma timestampOf_absent (r : JsRecord) :
  r !! "lastModified" = None → timestampOf r = None.
Proof. intros Hr. unfold timestampOf, get. by rewrite Hr. Qed.

(** On a string it is what [Date.parse] reads, the empty string apart. *)
Lemma timestampOf_string (r : JsRecord) (s : string) :
  r !! "lastModified" = Some (JsString s) → s ≠ "" →
  timestampOf r = Date_parse s.
Proof.
  intros Hr Hs. unfold timestampOf, get. rewrite Hr. simpl.
  destruct (String.eqb_spec s ""); [done | reflexivity].
Qed.

Lemma num_gt_abs_sub (a b : Num) (k : Z) :
  num_gt (Math_abs (num_sub a b)) k = true ↔
  ∃ x y, a = Some x ∧ b = Some y ∧ (k < Z.abs (x - y))%Z.
Proof.
  destruct a as [x|], b as [y|]; simpl.
  - rewrite Z.ltb_lt. naive_solver.
  - naive_solver.
  - naive_solver.
  - naive_solver.
Qed.

Lemma num_gt_abs_sub_comm (a b : Num) (k : Z) :
  num_gt (Math_abs (num_sub a b)) k = num_gt (Math_abs (num_sub b a)) k.
Proof.
  destruct a as [x|], b as [y|]; simpl; try reflexivity.
  f_equal. lia.
Qed.

(** C6.  [detectConflict] answers true exactly when both records carry a
    [lastModified] timestamp and the two instants are more than 1000 ms
    apart, and the answer does not depend on the order of the two
    records. *)
Theorem detectConflict_iff_and_symmetric (a b : JsRecord) :
  (detectConflict a b = true ↔
     ∃ ta tb, timestampOf a = Some ta ∧ timestampOf b = Some tb
              ∧ (1000 < Z.abs (ta - tb))%Z)
  ∧ detectConflict a b = detectConflict b a.
Proof.
  split.
  - unfold detectConflict.
    setoid_rewrite timestampOf_Some.
    destruct (truthy (get a "lastModified")) eqn:Ha;
      destruct (truthy (get b "lastModified")) eqn:Hb; simpl;
      try (split; [discriminate | naive_solver]).
    rewrite num_gt_abs_sub. naive_solver.
  - unfold detectConflict.
    rewrite (orb_comm (negb (truthy (get a "lastModified")))).
    destruct (_ || _); [reflexivity | apply num_gt_abs_sub_comm].
Qed.

Lemma merged_lookup (now : Z) (l r : JsRecord) (k : string) :
  detectConflict l r = true →
  syncWithConflictResolution now l r !! k =
    if decide (k = "lastModified") then Some (JsString (toISOString now))
    else match r !! k with
         | Some v => Some v
         | None => l !! k
         end.
Proof.
  intros Hc. unfold syncWithConflictResolution, spread2. rewrite Hc.
  case_decide as Hk.
  - subst k. apply lookup_insert_eq.
  - rewrite lookup_insert_ne by done.
    rewrite lookup_union. by destruct (r !! k), (l !! k).
Qed.

(** C7.  On a conflict the result is the shallow merge: a property of
    the remote record has the remote value, a property only the local
    record has keeps its value, and [lastModified] is the instant of the
    resolution; without a conflict the local record comes back as it
    is. *)
Theorem resolution_merge_or_local (now : Z) (l r : JsRecord) :
  (detectConflict l r = true →
     (∀ k v, k ≠ "lastModified" → r !! k = Some v →
             syncWithConflictResolution now l r !! k = Some v)
     ∧ (∀ k, k ≠ "lastModified" → r !! k = None →
             syncWithConflictResolution now l r !! k = l !! k)
     ∧ syncWithConflictResolution now l r !! "lastModified"
       = Some (JsString (toISOString now)))
  ∧ (detectConflict l r = false →
     syncWithConflictResolution now l r = l).
Proof.
  split.
  - intros Hc. repeat split.
    + intros k v Hk Hr. rewrite merged_lookup by done.
      rewrite decide_False by done. by rewrite Hr.
    + intros k Hk Hr. rewrite merged_lookup by done.
      rewrite decide_False by done. by rewrite Hr.
    + by rewrite merged_lookup.
  - intros Hc. unfold syncWithConflictResolution. by rewrite Hc.
Qed.

(** C10.  When both records have an [id] and a conflict is detected, the
    merged record carries the remote [id]: the local one is
    overwritten like any other colliding property. *)
Theorem merged_id_is_remote (now : Z) (l r : JsRecord)
    (idl idr : JsValue) :
  l !! "id" = Some idl →
  r !! "id" = Some idr →
  detectConflict l r = true →
  syncWithConflictResolution now l r !! "id" = Some idr.
Proof.
  intros _ Hr Hc. rewrite merged_lookup by done.
  rewrite decide_False by done. by rewrite Hr.
Qed.

End Resolver.

(** Scenario D of the specification, and the two ids of the test suite. *)
Lemma detectConflict_iff_and_symmetric_witness :
  @detectConflict Fixture.host Fixture.localBid Fixture.remoteBid = true
  ∧ @detectConflict Fixture.host Fixture.remoteBid Fixture.localBid = true.
Proof.
  destruct (@detectConflict_iff_and_symmetric Fixture.host
              Fixture.localBid Fixture.remoteBid) as [_ Hsym].
  rewrite <- Hsym. split; vm_compute; reflexivity.
Defined.

(** Scenario D, second half: 500 ms apart is within the tolerance and the
    local record comes back. *)
Lemma within_tolerance_local_kept :
  let l : JsRecord := {[ "lastModified" := JsDate (Some 1704103200000%Z) ]} in
  let r : JsRecord := {[ "lastModified" := JsDate (Some 1704103200500%Z) ]} in
  @detectConflict Fixture.host l r = false
  ∧ @syncWithConflictResolution Fixture.host 1704110400000 l r = l.
Proof. split; reflexivity. Qed.

Lemma resolution_merge_or_local_witness :
  @syncWithConflictResolution Fixture.host 1704110400000
    Fixture.localBid Fixture.remoteBid !! "totalPrice"
  = Some (JsNumber 1200)
  ∧ @syncWithConflictResolution Fixture.host 1704110400000
      Fixture.localBid Fixture.remoteBid !! "salesforceId"
    = Some (JsString "sf-123").
Proof.
  destruct (@resolution_merge_or_local Fixture.host 1704110400000
              Fixture.localBid Fixture.remoteBid) as [Hmerge _].
  destruct Hmerge as (Hremote & Hlocal & _); [vm_compute; reflexivity |].
  split.
  - apply Hremote; [discriminate | vm_compute; reflexivity].
  - rewrite Hlocal; [vm_compute; reflexivity | discriminate
                    | vm_compute; reflexivity].
Defined.

Lemma merged_id_is_remote_witness :
  @syncWithConflictResolution Fixture.host 1704110400000
    Fixture.localBid Fixture.remoteBid !! "id"
  = Some (JsString "sf-123").
Proof.
  apply (@merged_id_is_remote Fixture.host 1704110400000
           Fixture.localBid Fixture.remoteBid (JsString "local-123"));
    vm_compute; reflexivity.
Defined.

End ConflictFacts.

(** ** Retry wrapper *)

Module RetryFacts.

Section WithWorld.

Context {remote : RemoteWorld}.

Lemma backedOff_trace (attempt : nat) (c : Connector) :
  attempt < length retryDelays - 1 →
  trace (backedOff attempt c) =
    trace c ++ [EvTimeout (retryDelays !!! attempt)].
Proof. intros Hlt. unfold backedOff. by rewrite decide_True. Qed.

Lemma invoke_eq {T} (operation : M T) (c : Connector) :
  invoke operation c = operation (logged EvOperation c).
Proof. reflexivity. Qed.

(** One iteration of the loop, case by case. *)
Lemma retryLoop_step {T} (operation : M T) (n attempt : nat)
    (lastError : option JsError) (c : Connector) :
  retryLoop operation (S n) attempt lastError c =
    match invoke operation c with
    | (Ok v, c1) => (Ok v, c1)
    | (Throw e, c1) =>
        match (if decide (errorCode e = Some "INVALID_SESSION_ID")
               then config c1 else None) with
        | Some cfg =>
            match initialize cfg c1 with
            | (Ok _, c2) => invoke operation c2
            | (Throw e', c2) => (Throw e', c2)
            end
        | None =>
            if isValidationError e then (Throw e, c1)
            else retryLoop operation n (S attempt) (Some e)
                   (backedOff attempt c1)
        end
    end.
Proof.
  cbn [retryLoop]. unfold tryCatch at 1.
  destruct (invoke operation c) as [[v|e] c1]; [reflexivity |].
  unfold mbind, M_bind, bind at 1, getConfig.
  destruct (decide (errorCode e = Some "INVALID_SESSION_ID")) as [He|He].
  - destruct (config c1) as [cfg|].
    + unfold bind at 1. by destruct (initialize cfg c1) as [[[]|e'] c2].
    + destruct (isValidationError e); [reflexivity |].
      unfold bind, backedOff. case_decide; reflexivity.
  - destruct (isValidationError e); [reflexivity |].
    unfold bind, backedOff. case_decide; reflexivity.
Qed.

Lemma validation_is_not_auth (e : JsError) :
  isValidationError e = true → errorCode e ≠ Some "INVALID_SESSION_ID".
Proof.
  unfold isValidationError. intros Hv He. rewrite He in Hv.
  vm_compute in Hv. discriminate.
Qed.

Lemma retryLoop_transient {T} (operation : M T) (n attempt : nat)
    (lastError : option JsError) (c c1 : Connector) (e : JsError) :
  invoke operation c = (Throw e, c1) →
  isTransientError e = true →
  retryLoop operation (S n) attempt lastError c =
    retryLoop operation n (S attempt) (Some e) (backedOff attempt c1).
Proof.
  intros Hop Ht. rewrite retryLoop_step, Hop.
  unfold isTransientError, isAuthError in Ht.
  apply andb_true_iff in Ht as [Hauth Hval].
  apply negb_true_iff in Hauth, Hval.
  apply bool_decide_eq_false in Hauth.
  rewrite decide_False by done. by rewrite Hval.
Qed.

Lemma wrapperTrace_snoc (tr : list Event) (ev : Event) :
  isWrapperEvent ev = true →
  wrapperTrace (tr ++ [ev]) = wrapperTrace tr ++ [ev].
Proof.
  intros Hev. unfold wrapperTrace. rewrite filter_app.
  f_equal. rewrite filter_cons_True by done. reflexivity.
Qed.

Lemma initialize_trace (cfg : SalesforceConfig) (c : Connector) :
  trace (initialize cfg c).2 =
    trace c ++ [EvLogin (orDefault (loginUrl cfg)
                                   "https://test.salesforce.com")
                        (username cfg)
                        (password cfg +:+ securityToken cfg)].
Proof.
  unfold initialize, mbind, M_bind, bind, tryCatch, setConfig, setConn,
    log, call, throw. simpl.
  by destruct (jsforce_login _ _ _ _) as [[[]|e] w].
Qed.

Lemma wrapperTrace_request (tr : list Event) (req : SfRequest) :
  wrapperTrace (tr ++ [EvRequest req]) = wrapperTrace tr.
Proof.
  unfold wrapperTrace. rewrite filter_app, filter_cons_False by done.
  apply app_nil_r.
Qed.

(** The waits between the five iterations of the loop. *)
Lemma backedOff_slept (c : Connector) :
  backedOff 0 c = slept 1000 c ∧ backedOff 1 c = slept 2000 c
  ∧ backedOff 2 c = slept 4000 c ∧ backedOff 3 c = slept 8000 c
  ∧ backedOff 4 c = c.
Proof. repeat split; reflexivity. Qed.

(** C3.  An operation that rejects with a transient error each time it
    is called is invoked five times, and between one invocation and the
    next the timer runs, for 1000, 2000, 4000 and 8000 ms: each invocation
    is made on the connector as the one before it and the wait after that
    one left it.  The outcome of the wrapper, result and connector, is
    that of the fifth invocation: a rejection with its transient error,
    nothing else happening after it.  Of its own the wrapper has done
    these five invocations and four waits, and no login. *)
Theorem retry_transient_five_attempts {T} (operation : M T)
    (c : Connector) :
  (∀ c0, ∃ e c1, operation c0 = (Throw e, c1)
                 ∧ isTransientError e = true
                 ∧ wrapperTrace (trace c1) = wrapperTrace (trace c0)) →
  let c1 := slept 1000 (invoke operation c).2 in
  let c2 := slept 2000 (invoke operation c1).2 in
  let c3 := slept 4000 (invoke operation c2).2 in
  let c4 := slept 8000 (invoke operation c3).2 in
  retryOperation operation c = invoke operation c4
  ∧ (∃ e, (invoke operation c4).1 = Throw e ∧ isTransientError e = true)
  ∧ wrapperTrace (trace (retryOperation operation c).2) =
      wrapperTrace (trace c) ++
        [EvOperation; EvTimeout 1000;
         EvOperation; EvTimeout 2000;
         EvOperation; EvTimeout 4000;
         EvOperation; EvTimeout 8000;
         EvOperation].
Proof.
  intros Hfail c1 c2 c3 c4.
  destruct (Hfail (logged EvOperation c)) as (e1 & d1 & H1 & T1 & W1).
  destruct (Hfail (logged EvOperation c1)) as (e2 & d2 & H2 & T2 & W2).
  destruct (Hfail (logged EvOperation c2)) as (e3 & d3 & H3 & T3 & W3).
  destruct (Hfail (logged EvOperation c3)) as (e4 & d4 & H4 & T4 & W4).
  destruct (Hfail (logged EvOperation c4)) as (e5 & d5 & H5 & T5 & W5).
  rewrite <- invoke_eq in H1, H2, H3, H4, H5.
  assert (c1 = backedOff 0 d1) as E1 by (unfold c1; by rewrite H1).
  assert (c2 = backedOff 1 d2) as E2 by (unfold c2; by rewrite H2).
  assert (c3 = backedOff 2 d3) as E3 by (unfold c3; by rewrite H3).
  assert (c4 = backedOff 3 d4) as E4 by (unfold c4; by rewrite H4).
  assert (retryOperation operation c = invoke operation c4) as Hrun.
  { unfold retryOperation. cbn [length retryDelays].
    rewrite (retryLoop_transient _ _ _ _ _ d1 e1), <- E1 by done.
    rewrite (retryLoop_transient _ _ _ _ _ d2 e2), <- E2 by done.
    rewrite (retryLoop_transient _ _ _ _ _ d3 e3), <- E3 by done.
    rewrite (retryLoop_transient _ _ _ _ _ d4 e4), <- E4 by done.
    rewrite (retryLoop_transient _ _ _ _ _ d5 e5) by done.
    by rewrite H5. }
  split; [exact Hrun |]. split; [exists e5; by rewrite H5 |].
  rewrite Hrun, H5. cbn [snd].
  assert (∀ ms d, wrapperTrace (trace (logged EvOperation (slept ms d)))
                  = wrapperTrace (trace d) ++ [EvTimeout ms; EvOperation])
    as Hnext.
  { intros ms d. cbn [logged slept trace].
    rewrite !wrapperTrace_snoc by done. by rewrite <- app_assoc. }
  rewrite W5. unfold c4. rewrite Hnext, H4. cbn [snd].
  rewrite W4. unfold c3. rewrite Hnext, H3. cbn [snd].
  rewrite W3. unfold c2. rewrite Hnext, H2. cbn [snd].
  rewrite W2. unfold c1. rewrite Hnext, H1. cbn [snd].
  rewrite W1. cbn [logged trace]. rewrite wrapperTrace_snoc by done.
  rewrite <- !app_assoc. reflexivity.
Qed.

(** C4.  When an attempt rejects with [INVALID_SESSION_ID] and
    the connector holds a configuration, the wrapper logs in again,
    once.  If the login succeeds the operation is invoked once more and
    the outcome of that invocation, a rejection included, is the outcome
    of the wrapper: no further attempt, no wait.  If the login itself
    is rejected, that rejection is the outcome and the operation is not
    invoked again. *)
Theorem reauth_then_single_retry {T} (operation : M T) (n attempt : nat)
    (lastError : option JsError) (c c1 : Connector) (e : JsError)
    (cfg : SalesforceConfig) :
  invoke operation c = (Throw e, c1) →
  isAuthError e = true →
  config c1 = Some cfg →
  trace (initialize cfg c1).2 =
    trace c1 ++ [EvLogin (orDefault (loginUrl cfg)
                                    "https://test.salesforce.com")
                         (username cfg)
                         (password cfg +:+ securityToken cfg)]
  ∧ match initialize cfg c1 with
    | (Ok _, c2) =>
        retryLoop operation (S n) attempt lastError c = invoke operation c2
    | (Throw e', c2) =>
        retryLoop operation (S n) attempt lastError c = (Throw e', c2)
    end.
Proof.
  intros Hop Hauth Hcfg. split; [apply initialize_trace |].
  rewrite retryLoop_step, Hop.
  apply bool_decide_eq_true in Hauth.
  rewrite decide_True, Hcfg by done.
  by destruct (initialize cfg c1) as [[[]|e'] c2].
Qed.

(** C9.  When an attempt rejects with an error whose code contains
    [VALIDATION], the wrapper rejects with that error there and then:
    the connector is left as the failed attempt left it, so no login,
    no wait and no further attempt took place. *)
Theorem validation_propagates_at_once {T} (operation : M T)
    (n attempt : nat) (lastError : option JsError) (c c1 : Connector)
    (e : JsError) :
  invoke operation c = (Throw e, c1) →
  isValidationError e = true →
  retryLoop operation (S n) attempt lastError c = (Throw e, c1).
Proof.
  intros Hop Hval. rewrite retryLoop_step, Hop.
  rewrite decide_False by by apply validation_is_not_auth.
  by rewrite Hval.
Qed.

End WithWorld.

Import Fixture.

(** The remote is down: it has refused five requests when the wrapper
    gives up, and fifteen seconds have gone by. *)
Lemma retry_transient_five_attempts_witness :
  let c0 := @mkConnector MoreFixture.down true None
              (MoreFixture.mkOutage 0 0) [] in
  (@retryOperation MoreFixture.down _ MoreFixture.attachWhenDown c0).1
    = Throw networkDown
  ∧ @world MoreFixture.down
      (@retryOperation MoreFixture.down _ MoreFixture.attachWhenDown c0).2
    = MoreFixture.mkOutage 15000 5
  ∧ wrapperTrace
      (trace (@retryOperation MoreFixture.down _
                MoreFixture.attachWhenDown c0).2)
    = [EvOperation; EvTimeout 1000;
       EvOperation; EvTimeout 2000;
       EvOperation; EvTimeout 4000;
       EvOperation; EvTimeout 8000;
       EvOperation].
Proof.
  intros c0.
  destruct (@retry_transient_five_attempts MoreFixture.down _
              MoreFixture.attachWhenDown c0) as (Hrun & _ & Htrace).
  - intros c. eexists networkDown, _.
    split; [reflexivity |]. split; [reflexivity |].
    apply wrapperTrace_request.
  - split; [by rewrite Hrun |]. split; [by rewrite Hrun | exact Htrace].
Defined.

(** The session has expired, the login is accepted, and the second
    invocation fails on the network: that failure is the outcome. *)
Lemma reauth_then_single_retry_witness :
  let c0 :=
    connectedTo (mkScript 0 [] [Throw sessionExpired; Throw networkDown]) in
  let c1 := (@invoke scripted _ attach c0).2 in
  let c2 := (@initialize scripted testOrg c1).2 in
  @retryOperation scripted _ attach c0 = @invoke scripted _ attach c2
  ∧ (@retryOperation scripted _ attach c0).1 = Throw networkDown.
Proof.
  intros c0 c1 c2.
  destruct (@reauth_then_single_retry scripted _ attach 4 0 None c0 c1
              sessionExpired testOrg) as [_ Hrun];
    [reflexivity | reflexivity | reflexivity |].
  split; [exact Hrun | reflexivity].
Defined.

(** A refused login ends the wrapper: the session has expired, the
    connector is configured, yet the operation is invoked once in all and
    not retried after the login. *)
Lemma reauth_refused_no_retry :
  let c0 :=
    connectedTo (mkScript 0 [Throw loginRefused] [Throw sessionExpired]) in
  (@invoke scripted _ attach c0).1 = Throw sessionExpired
  ∧ config (@invoke scripted _ attach c0).2 = Some testOrg
  ∧ (@retryOperation scripted _ attach c0).1 = Throw loginRefused
  ∧ wrapperTrace (trace (@retryOperation scripted _ attach c0).2) =
      [EvOperation;
       EvLogin "https://test.salesforce.com" "estimator@example.com"
               "pwtoken"].
Proof. repeat split; vm_compute; reflexivity. Qed.

Lemma validation_propagates_at_once_witness :
  let c0 := connectedTo (mkScript 0 [] [Throw fieldRejected]) in
  @retryOperation scripted _ attach c0 =
    (Throw fieldRejected, (@invoke scripted _ attach c0).2).
Proof.
  intros c0.
  apply (@validation_propagates_at_once scripted _ attach 4 0 None c0);
    reflexivity.
Defined.

End RetryFacts.

(** ** Queue store *)

Module DbFacts.

#[global] Instance createdAt_le_trans : Transitive Db.createdAt_le.
Proof. intros a b c. unfold Db.createdAt_le. lia. Qed.

#[global] Instance createdAt_le_total : Total Db.createdAt_le.
Proof. intros a b. unfold Db.createdAt_le. lia. Qed.

#[global] Instance index_le_trans : Transitive Db.index_le.
Proof. intros a b c. unfold Db.index_le. lia. Qed.

#[global] Instance index_le_total : Total Db.index_le.
Proof. intros a b. unfold Db.index_le. lia. Qed.

Lemma eligible_Permutation (bound : Z) (tbl : Db.Table) :
  Db.where_attempts_below bound None tbl
  ≡ₚ filter (λ it, attempts it < bound)%Z tbl.
Proof. unfold Db.where_attempts_below. apply merge_sort_Permutation. Qed.

Lemma eligible_sorted (bound : Z) (tbl : Db.Table) :
  StronglySorted Db.index_le (Db.where_attempts_below bound None tbl).
Proof.
  unfold Db.where_attempts_below. apply StronglySorted_merge_sort; apply _.
Qed.


Lemma limited_is_prefix (bound : Z) (n : nat) (tbl : Db.Table) :
  Db.where_attempts_below bound (Some n) tbl
  = take n (Db.where_attempts_below bound None tbl).
Proof. reflexivity. Qed.

Lemma dequeued_eligible (bound : Z) (limit : option nat) (tbl : Db.Table)
    (it : SyncQueueItem) :
  it ∈ Db.where_attempts_below bound limit tbl →
  it ∈ tbl ∧ (attempts it < bound)%Z.
Proof.
  intros Hin.
  assert (it ∈ Db.where_attempts_below bound None tbl) as Hall.
  { destruct limit as [n|]; [| done].
    rewrite limited_is_prefix in Hin.
    eapply elem_of_sublist; [done | apply sublist_take]. }
  rewrite eligible_Permutation in Hall.
  apply list_elem_of_filter in Hall. tauto.
Qed.

Lemma limited_sorted (bound : Z) (limit : option nat) (tbl : Db.Table) :
  StronglySorted Db.index_le (Db.where_attempts_below bound limit tbl).
Proof.
  destruct limit as [n|]; [| apply eligible_sorted].
  rewrite limited_is_prefix.
  pose proof (eligible_sorted bound tbl) as Hs.
  rewrite <- (take_drop n (Db.where_attempts_below bound None tbl)) in Hs.
  by apply StronglySorted_app_1_l in Hs.
Qed.

Lemma limited_length (bound : Z) (n : nat) (tbl : Db.Table) :
  length (Db.where_attempts_below bound (Some n) tbl) ≤ n.
Proof. rewrite limited_is_prefix, length_take. lia. Qed.

(** The ids of a table identify its rows. *)
Lemma id_inj_on (tbl : Db.Table) (a b : SyncQueueItem) :
  NoDup (id <$> tbl) → a ∈ tbl → b ∈ tbl → id a = id b → a = b.
Proof.
  induction tbl as [|x tbl IH]; intros Hnd Ha Hb Hid.
  - by apply elem_of_nil in Ha.
  - rewrite fmap_cons in Hnd. apply NoDup_cons in Hnd as [Hx Hnd].
    apply elem_of_cons in Ha as [->|Ha], Hb as [->|Hb].
    + done.
    + exfalso. apply Hx. rewrite Hid. by apply list_elem_of_fmap_2.
    + exfalso. apply Hx. rewrite <- Hid. by apply list_elem_of_fmap_2.
    + by apply IH.
Qed.

Lemma delete_keeps (key : Z) (tbl : Db.Table) (it : SyncQueueItem) :
  it ∈ tbl → id it ≠ key → it ∈ Db.delete key tbl.
Proof. intros Hin Hne. unfold Db.delete. by apply list_elem_of_filter. Qed.

Lemma update_keeps (key att last : Z) (err : string) (tbl : Db.Table)
    (it : SyncQueueItem) :
  it ∈ tbl → id it ≠ key → it ∈ Db.update key att last err tbl.
Proof.
  intros Hin Hne. unfold Db.update. apply list_elem_of_fmap.
  exists it. split; [| done]. by rewrite decide_False.
Qed.

Lemma update_ids (key att last : Z) (err : string) (tbl : Db.Table) :
  id <$> Db.update key att last err tbl = id <$> tbl.
Proof.
  unfold Db.update. rewrite <- list_fmap_compose.
  apply list_fmap_ext. intros i x _. simpl. by case_decide.
Qed.

Lemma delete_ids_NoDup (key : Z) (tbl : Db.Table) :
  NoDup (id <$> tbl) → NoDup (id <$> Db.delete key tbl).
Proof.
  intros Hnd. eapply sublist_NoDup; [exact Hnd |].
  apply fmap_sublist, sublist_filter.
Qed.

Lemma nextId_above (tbl : Db.Table) (it : SyncQueueItem) :
  it ∈ tbl → (id it < Db.nextId tbl)%Z.
Proof.
  unfold Db.nextId. induction tbl as [|x tbl IH]; intros Hin.
  - by apply elem_of_nil in Hin.
  - rewrite fmap_cons. cbn [foldr].
    apply elem_of_cons in Hin as [->|Hin]; [lia |].
    specialize (IH Hin). lia.
Qed.

Lemma add_ids_NoDup (ty op : string) (payload : JsRecord) (att created : Z)
    (tbl : Db.Table) :
  NoDup (id <$> tbl) → NoDup (id <$> Db.add ty op payload att created tbl).
Proof.
  intros Hnd. unfold Db.add. rewrite fmap_app. apply NoDup_app.
  split; [done |]. split; [| apply NoDup_singleton].
  intros k Hk Hk'. apply list_elem_of_fmap in Hk as (it & -> & Hin).
  apply list_elem_of_singleton in Hk'. simpl in Hk'.
  apply nextId_above in Hin. lia.
Qed.

End DbFacts.

(** ** Coordinator *)

Module CoordinatorFacts.

Import RetryFacts DbFacts.

Section WithWorld.

Context {remote : RemoteWorld}.
Context {host : Conflict.DateHost}.

Lemma quiet_ret {A} (a : A) : quiet (ret a).
Proof. by intros c. Qed.

Lemma quiet_throw {A} (e : JsError) : quiet (@throw _ A e).
Proof. by intros c. Qed.

Lemma quiet_bind {A B} (m : M A) (k : A → M B) :
  quiet m → (∀ a, quiet (k a)) → quiet (bind m k).
Proof.
  intros Hm Hk c. unfold bind. specialize (Hm c).
  destruct (m c) as [[a|e] c1]; simpl in *; [by rewrite Hk | done].
Qed.

Lemma quiet_tryCatch {A} (m : M A) (handler : JsError → M A) :
  quiet m → (∀ e, quiet (handler e)) → quiet (tryCatch m handler).
Proof.
  intros Hm Hh c. unfold tryCatch. specialize (Hm c).
  destruct (m c) as [[a|e] c1]; simpl in *; [done | by rewrite Hh].
Qed.

Lemma quiet_log (ev : Event) : synced [ev] = [] → quiet (log ev).
Proof.
  intros Hev c. unfold log, synced in *. simpl.
  by rewrite omap_app, Hev, app_nil_r.
Qed.

Lemma quiet_call {A} (f : World → Result A * World) : quiet (call f).
Proof. intros c. unfold call. by destruct (f (world c)). Qed.

Lemma quiet_getConn : quiet getConn.
Proof. by intros c. Qed.

Lemma quiet_getConfig : quiet getConfig.
Proof. by intros c. Qed.

Lemma quiet_setConfig (cfg : SalesforceConfig) : quiet (setConfig cfg).
Proof. by intros c. Qed.

Lemma quiet_setConn : quiet setConn.
Proof. by intros c. Qed.

Lemma quiet_newDate : quiet newDate.
Proof. by intros c. Qed.

Ltac quiet_step :=
  first
    [ assumption
    | apply quiet_ret | apply quiet_throw
    | apply quiet_getConn | apply quiet_getConfig
    | apply quiet_setConfig | apply quiet_setConn
    | apply quiet_newDate | apply quiet_call
    | apply quiet_log; reflexivity
    | apply quiet_bind; [| intros ?]
    | apply quiet_tryCatch; [| intros ?]
    | match goal with
      | |- quiet (if ?b then _ else _) => destruct b
      | |- quiet (match ?x with Some _ => _ | None => _ end) => destruct x
      end ].

Ltac quiet_solve :=
  unfold mbind, mret, M_bind, M_ret; repeat quiet_step.

Lemma quiet_sleep (ms : Z) : quiet (sleep ms).
Proof. unfold sleep. quiet_solve. Qed.

Lemma quiet_initialize (cfg : SalesforceConfig) : quiet (initialize cfg).
Proof. unfold initialize. quiet_solve. Qed.

Lemma quiet_invoke {T} (operation : M T) :
  quiet operation → quiet (invoke operation).
Proof. intros Hop. unfold invoke. quiet_solve. Qed.

Lemma quiet_retryLoop {T} (operation : M T) (n attempt : nat)
    (lastError : option JsError) :
  quiet operation → quiet (retryLoop operation n attempt lastError).
Proof.
  intros Hop. revert attempt lastError.
  induction n as [|n IH]; intros attempt lastError.
  - unfold retryLoop, throwLast. quiet_solve.
  - cbn [retryLoop].
    pose proof (quiet_invoke operation Hop) as Hinv.
    pose proof (IH (S attempt)) as IH'.
    apply quiet_tryCatch; [done |]. intros error.
    unfold mbind, M_bind. apply quiet_bind; [apply quiet_getConfig |].
    intros cfg.
    destruct (if decide (errorCode error = Some "INVALID_SESSION_ID")
              then cfg else None) as [c0|].
    + apply quiet_bind; [apply quiet_initialize | by intros _].
    + destruct (isValidationError error); [apply quiet_throw |].
      apply quiet_bind; [| intros _; apply IH'].
      case_decide; [apply quiet_sleep | apply quiet_ret].
Qed.

Lemma quiet_retryOperation {T} (operation : M T) :
  quiet operation → quiet (retryOperation operation).
Proof. apply quiet_retryLoop. Qed.

Lemma quiet_request (req : SfRequest) : quiet (request req).
Proof. unfold request. quiet_solve. Qed.

Lemma quiet_nowISO : quiet nowISO.
Proof. unfold nowISO. quiet_solve. Qed.

Lemma quiet_upsertProperty (d : JsRecord) : quiet (upsertProperty d).
Proof.
  apply quiet_retryOperation.
  pose proof quiet_request. pose proof quiet_nowISO. quiet_solve.
  all: first [apply quiet_nowISO | apply quiet_request].
Qed.

Lemma quiet_upsertQuote (d : JsRecord) : quiet (upsertQuote d).
Proof.
  apply quiet_retryOperation.
  quiet_solve.
  all: first [apply quiet_nowISO | apply quiet_request].
Qed.

Lemma quiet_uploadAttachment (d : JsRecord) : quiet (uploadAttachment d).
Proof.
  apply quiet_retryOperation.
  quiet_solve.
  all: first [apply quiet_nowISO | apply quiet_request].
Qed.

Lemma bind_log {A} (ev : Event) (k : unit → M A) (c : Connector) :
  bind (log ev) k c = k tt (logged ev c).
Proof. reflexivity. Qed.

(** [syncItem] notes its item, and none but its item. *)
Lemma syncItem_synced (item : SyncQueueItem) (c : Connector) :
  synced (trace (syncItem item c).2) = synced (trace c) ++ [item].
Proof.
  assert (∀ m : M string, quiet m →
            synced (trace (m (logged (EvSyncItem item) c)).2)
            = synced (trace c) ++ [item]) as Hafter.
  { intros m Hq. rewrite Hq. cbn [logged trace]. unfold synced.
    by rewrite omap_app. }
  unfold syncItem, mbind, M_bind. rewrite bind_log.
  repeat match goal with
         | |- context [if ?b then _ else _] => destruct b
         end;
    apply Hafter;
    match goal with
    | |- quiet (upsertProperty _) => apply quiet_upsertProperty
    | |- quiet (upsertQuote _) => apply quiet_upsertQuote
    | |- quiet (uploadAttachment _) => apply quiet_uploadAttachment
    | |- quiet (throw _) => apply quiet_throw
    end.
Qed.

(** *** The loop *)

Lemma processItems_synced (items : list SyncQueueItem) (r : SyncResults)
    (st : State) :
  synced (trace (salesforce (processItems items r st).2))
  = synced (trace (salesforce st)) ++ items.
Proof.
  revert r st. induction items as [|item rest IH]; intros r st.
  - cbn [processItems]. by rewrite app_nil_r.
  - cbn [processItems].
    pose proof (syncItem_synced item (salesforce st)) as Hs.
    destruct (syncItem item (salesforce st)) as [[v|e] sf];
      rewrite IH; cbn [salesforce]; simpl in Hs;
      by rewrite Hs, <- app_assoc.
Qed.

Lemma processItems_counts (items : list SyncQueueItem) (r : SyncResults)
    (st : State) :
  total (processItems items r st).1 = total r
  ∧ success (processItems items r st).1 + failed (processItems items r st).1
    = success r + failed r + length items
  ∧ ∃ newErrs,
      errors (processItems items r st).1
        = (λ errs, errs ++ newErrs) <$> errors r
      ∧ failed (processItems items r st).1 = failed r + length newErrs
      ∧ newErrs.*1 `sublist_of` items.
Proof.
  revert r st. induction items as [|item rest IH]; intros r st.
  - cbn [processItems fst length]. split; [done |]. split; [lia |].
    exists []. cbn [length fmap list_fmap]. split; [| split; [lia | done]].
    destruct (errors r); simpl; by rewrite ?app_nil_r.
  - cbn [processItems].
    destruct (syncItem item (salesforce st)) as [[v|e] sf].
    + match goal with
      | |- context [processItems rest ?r1 ?st1] =>
          destruct (IH r1 st1) as (Ht & Hc & errs & He & Hf & Hs)
      end.
      cbn [total success failed errors] in *.
      rewrite Ht, Hc, He, Hf. cbn [length].
      split; [done |]. split; [lia |].
      exists errs. split; [done |]. split; [done |]. by apply sublist_cons.
    + match goal with
      | |- context [processItems rest ?r1 ?st1] =>
          destruct (IH r1 st1) as (Ht & Hc & errs & He & Hf & Hs)
      end.
      cbn [total success failed errors] in *.
      rewrite Ht, Hc, He, Hf. cbn [length].
      split; [done |]. split; [lia |].
      exists ((item, message e) :: errs). cbn [length fmap list_fmap fst].
      split; [| split; [lia | by apply sublist_skip]].
      destruct (errors r); simpl; by rewrite <- ?app_assoc.
Qed.

(** A row whose id is the id of no processed item is still there. *)
Lemma processItems_keeps (items : list SyncQueueItem) (r : SyncResults)
    (st : State) (it : SyncQueueItem) :
  it ∈ syncQueue st →
  (∀ it', it' ∈ items → id it ≠ id it') →
  it ∈ syncQueue (processItems items r st).2.
Proof.
  revert r st. induction items as [|item rest IH]; intros r st Hin Hids.
  - done.
  - cbn [processItems].
    assert (id it ≠ id item) as Hne by (apply Hids; left).
    destruct (syncItem item (salesforce st)) as [[v|e] sf]; apply IH;
      cbn [syncQueue];
      first [ by apply delete_keeps | by apply update_keeps
            | intros it' Hit'; apply Hids; by right ].
Qed.

Lemma processItems_ids_NoDup (items : list SyncQueueItem)
    (r : SyncResults) (st : State) :
  NoDup (id <$> syncQueue st) →
  NoDup (id <$> syncQueue (processItems items r st).2).
Proof.
  revert r st. induction items as [|item rest IH]; intros r st Hnd.
  - done.
  - cbn [processItems].
    destruct (syncItem item (salesforce st)) as [[v|e] sf]; apply IH;
      cbn [syncQueue].
    + by apply delete_ids_NoDup.
    + by rewrite update_ids.
Qed.

(** The ids stay pairwise distinct: an invariant of the queue, from the
    empty table on. *)
Lemma queueForSync_ids_NoDup (ty op : string) (payload : JsRecord)
    (st : State) :
  NoDup (id <$> syncQueue st) →
  NoDup (id <$> syncQueue (queueForSync ty op payload st)).
Proof. apply add_ids_NoDup. Qed.

Lemma processSyncQueue_ids_NoDup (st : State) :
  NoDup (id <$> syncQueue st) →
  NoDup (id <$> syncQueue (processSyncQueue st).2).
Proof. apply processItems_ids_NoDup. Qed.

(** The batch loop is the full loop with the error list left alone. *)
Lemma processItemsBatch_eq (items : list SyncQueueItem)
    (r r' : SyncResults) (st : State) :
  total r = total r' → success r = success r' → failed r = failed r' →
  processItemsBatch items r st
  = (mkResults (total (processItems items r' st).1)
               (success (processItems items r' st).1)
               (failed (processItems items r' st).1)
               (errors r),
     (processItems items r' st).2).
Proof.
  revert r r' st. induction items as [|item rest IH];
    intros r r' st Ht Hs Hf.
  - cbn [processItems processItemsBatch fst snd].
    rewrite <- Ht, <- Hs, <- Hf. by destruct r.
  - cbn [processItems processItemsBatch].
    destruct (syncItem item (salesforce st)) as [[v|e] sf].
    + erewrite IH; [reflexivity | | |]; cbn; congruence.
    + erewrite IH; [reflexivity | | |]; cbn; congruence.
Qed.

(** *** A remote that accepts everything *)












(** *** The drains *)







Lemma spent_item_other_id (tbl : Db.Table) (limit : option nat)
    (it it' : SyncQueueItem) :
  NoDup (id <$> tbl) → it ∈ tbl → (5 ≤ attempts it)%Z →
  it' ∈ Db.where_attempts_below 5 limit tbl →
  id it' ≠ id it.
Proof.
  intros Hnd Hin Hge Hin' Hid.
  apply dequeued_eligible in Hin' as [Hin' Hlt].
  assert (it' = it) as -> by by eapply id_inj_on.
  lia.
Qed.

(** C2.  A row with five attempts or more is not handed to [syncItem]
    by either drain, nor is any row of the same id; the row is in the
    table afterwards as it was before. *)
Theorem spent_items_left_alone (st : State) (batchSize : option nat)
    (it : SyncQueueItem) :
  NoDup (id <$> syncQueue st) →
  it ∈ syncQueue st →
  (5 ≤ attempts it)%Z →
  (∃ handled,
     synced (trace (salesforce (processSyncQueue st).2))
       = synced (trace (salesforce st)) ++ handled
     ∧ (∀ it', it' ∈ handled → id it' ≠ id it)
     ∧ it ∈ syncQueue (processSyncQueue st).2)
  ∧ (∃ handled,
       synced (trace (salesforce (processSyncQueueBatch batchSize st).2))
         = synced (trace (salesforce st)) ++ handled
       ∧ (∀ it', it' ∈ handled → id it' ≠ id it)
       ∧ it ∈ syncQueue (processSyncQueueBatch batchSize st).2).
Proof.
  intros Hnd Hin Hge. split.
  - exists (Db.where_attempts_below 5 None (syncQueue st)).
    split; [apply processItems_synced |].
    split; [intros it'; by apply spent_item_other_id |].
    apply processItems_keeps; [done |].
    intros it' Hit' Hid. by eapply spent_item_other_id.
  - exists (Db.where_attempts_below 5 (Some (default 20 batchSize))
              (syncQueue st)).
    unfold processSyncQueueBatch.
    erewrite processItemsBatch_eq by reflexivity. cbn [snd].
    split; [apply processItems_synced |].
    split; [intros it'; by apply spent_item_other_id |].
    apply processItems_keeps; [done |].
    intros it' Hit' Hid. by eapply spent_item_other_id.
Qed.


(** C8.  [processSyncQueueBatch] takes at most [batchSize]
    rows (20 when the argument is left out), each with fewer than five
    attempts, hands them to [syncItem] in order and returns
    [{total, success, failed}], every taken row counted once: the
    object has no [errors] list. *)
Theorem processBatch_bounded_no_errors (batchSize : option nat)
    (st : State) :
  let items := Db.where_attempts_below 5 (Some (default 20 batchSize))
                 (syncQueue st) in
  let r := (processSyncQueueBatch batchSize st).1 in
  length items ≤ default 20 batchSize
  ∧ (∀ it, it ∈ items → it ∈ syncQueue st ∧ (attempts it < 5)%Z)
  ∧ synced (trace (salesforce (processSyncQueueBatch batchSize st).2))
    = synced (trace (salesforce st)) ++ items
  ∧ total r = length items
  ∧ success r + failed r = total r
  ∧ errors r = None.
Proof.
  intros items r. split; [apply limited_length |].
  split; [intros it; apply dequeued_eligible |].
  unfold r, processSyncQueueBatch. fold items.
  erewrite processItemsBatch_eq by reflexivity.
  cbn [fst snd total success failed errors].
  split; [apply processItems_synced |].
  destruct (processItems_counts items
              (mkResults (length items) 0 0 None) st)
    as (Ht & Hc & _).
  cbn [total success failed errors] in *. rewrite Ht.
  split; [done |]. split; [lia | done].
Qed.

End WithWorld.

Import Fixture.

Lemma alwaysUp_alwaysSucceeds : @alwaysSucceeds alwaysUp.
Proof. intros req w. by eexists _, _. Qed.




(** Scenario C: the eight bids of two days offline go out in one call, in
    the order they were queued, and the queue is empty afterwards. *)
Lemma backOnline_drained :
  (@processSyncQueue alwaysUp host backOnline).1 = mkResults 8 8 0 (Some [])
  ∧ createdAt <$> synced (@trace alwaysUp
      (@salesforce alwaysUp (@processSyncQueue alwaysUp host backOnline).2))
    = [0; 21600000; 43200000; 64800000; 86400000; 108000000; 129600000;
       151200000]%Z
  ∧ @syncQueue alwaysUp (@processSyncQueue alwaysUp host backOnline).2 = [].
Proof. repeat split; vm_compute; reflexivity. Qed.

Lemma spent_items_left_alone_witness :
  spent3 ∈ @syncQueue alwaysUp (@processSyncQueue alwaysUp host online).2
  ∧ spent3 ∈ @syncQueue alwaysUp
               (@processSyncQueueBatch alwaysUp host (Some 1) online).2.
Proof.
  destruct (@spent_items_left_alone alwaysUp host online (Some 1) spent3)
    as [(h & _ & _ & Hall) (h' & _ & _ & Hbatch)].
  - vm_compute. repeat constructor; set_solver.
  - vm_compute. set_solver.
  - vm_compute. discriminate.
  - split; [exact Hall | exact Hbatch].
Defined.

(** The bid is rejected, the quote after it is delivered all the same. *)
Lemma firstRejected_isolated :
  (@processSyncQueue scripted host MoreFixture.firstRejected).1
    = mkResults 2 1 1 (Some [(bid1, "Price must be positive")])
  ∧ synced (@trace scripted
              (@salesforce scripted
                 (@processSyncQueue scripted host
                    MoreFixture.firstRejected).2))
    = [bid1; quote2]
  ∧ id <$> @syncQueue scripted
             (@processSyncQueue scripted host MoreFixture.firstRejected).2
    = [1; 3]%Z.
Proof. repeat split; vm_compute; reflexivity. Qed.

(** The two results differ in shape: where [processSyncQueue] lists the
    error of the rejected quote, the object [processSyncQueueBatch]
    returns for the same queue has no [errors] at all. *)
Lemma processBatch_result_lacks_errors :
  failed (@processSyncQueueBatch scripted host (Some 20) oneRejected).1 = 1
  ∧ errors (@processSyncQueueBatch scripted host (Some 20) oneRejected).1
    = None
  ∧ errors (@processSyncQueue scripted host oneRejected).1
    = Some [(quote2, "Price must be positive")].
Proof. repeat split; vm_compute; reflexivity. Qed.

Lemma processBatch_bounded_no_errors_witness :
  total (@processSyncQueueBatch scripted host (Some 1) oneRejected).1 ≤ 1
  ∧ errors (@processSyncQueueBatch scripted host (Some 1) oneRejected).1
    = None.
Proof.
  destruct (@processBatch_bounded_no_errors scripted host (Some 1)
              oneRejected) as (Hlen & _ & _ & Ht & _ & He).
  split; [| exact He]. rewrite Ht. exact Hlen.
Defined.

End CoordinatorFacts.

(** ** The rest of the connector *)

Module RestFacts.

Import RetryFacts DbFacts CoordinatorFacts.

Section WithWorld.

Context {remote : RemoteWorld}.
Context {host : Conflict.DateHost}.

Lemma bind_getConn {A} (k : bool → M A) (c : Connector) :
  bind getConn k c = k (conn c) c.
Proof. reflexivity. Qed.

Lemma request_eq (req : SfRequest) (c : Connector) :
  request req c =
    ((jsforce_request req (world c)).1,
     mkConnector (conn c) (config c) (jsforce_request req (world c)).2
                 (trace c ++ [EvRequest req])).
Proof.
  unfold request, mbind, M_bind. rewrite bind_log. unfold call.
  cbn [logged world conn config trace].
  by destruct (jsforce_request req (world c)).
Qed.

Lemma create_connected_trace (objectType : string) (d : JsRecord)
    (c : Connector) :
  conn c = true →
  trace (create objectType d c).2
  = trace c ++ [EvRequest (SfCreate objectType d)].
Proof.
  intros Hconn. unfold create, mbind, mret, M_bind, M_ret.
  rewrite bind_getConn, Hconn. cbn [negb]. unfold bind. rewrite request_eq.
  destruct (jsforce_request (SfCreate objectType d) (world c))
    as [[result|e] w]; cbn [fst snd]; [| done].
  by destruct (result_success result).
Qed.

(** X1.  [create] is not wrapped by the retry loop.  Unconnected, it
    rejects with "Not connected to Salesforce" and the connector is left
    as it was.  Connected, it makes exactly one request and nothing else:
    a rejection of that request is the outcome as it is, a result without
    [success] becomes a "Failed to create" error, a successful result is
    returned. *)
Theorem create_single_request (objectType : string) (d : JsRecord)
    (c : Connector) :
  (conn c = false →
     create objectType d c = (Throw (Error "Not connected to Salesforce"), c))
  ∧ (conn c = true →
     trace (create objectType d c).2
       = trace c ++ [EvRequest (SfCreate objectType d)]
     ∧ (create objectType d c).1
       = match (jsforce_request (SfCreate objectType d) (world c)).1 with
         | Throw e => Throw e
         | Ok result =>
             if result_success result then Ok result
             else Throw (Error ("Failed to create " +:+ objectType +:+ ": "
                                +:+ result_errors result))
         end).
Proof.
  unfold create, mbind, mret, M_bind, M_ret. rewrite bind_getConn.
  split; intros Hconn; rewrite Hconn; cbn [negb]; [reflexivity |].
  unfold bind. rewrite request_eq.
  destruct (jsforce_request (SfCreate objectType d) (world c))
    as [[result|e] w]; cbn [fst snd]; [| done].
  by destruct (result_success result).
Qed.

(** X2.  An item of an entity type [syncItem] has no case for is rejected
    at once with "Unknown sync item type": the connector only notes the
    item; no operation is invoked, nothing is requested, nothing waited
    for. *)
Theorem syncItem_unknown_type (item : SyncQueueItem) (c : Connector) :
  knownType (type item) = false →
  syncItem item c
  = (Throw (Error ("Unknown sync item type: " +:+ type item)),
     logged (EvSyncItem item) c).
Proof.
  intros Hk. unfold syncItem, mbind, M_bind. rewrite bind_log.
  unfold knownType in Hk.
  destruct (String.eqb (type item) "property"); [done |].
  destruct (String.eqb (type item) "quote"); [done |].
  destruct (String.eqb (type item) "attachment"); [done |].
  destruct (String.eqb (type item) "bid"); [done | reflexivity].
Qed.

(** The connector after five failed attempts and the four waits between
    them. *)
Lemma retry_guard_exhausts {T} (operation : M T) (E : JsError)
    (c : Connector) :
  isTransientError E = true →
  (∀ c0, conn c0 = false → operation c0 = (Throw E, c0)) →
  conn c = false →
  (retryOperation operation c).1 = Throw E
  ∧ trace (retryOperation operation c).2
    = trace c ++ [EvOperation; EvTimeout 1000;
                  EvOperation; EvTimeout 2000;
                  EvOperation; EvTimeout 4000;
                  EvOperation; EvTimeout 8000;
                  EvOperation]
  ∧ conn (retryOperation operation c).2 = false.
Proof.
  intros Ht Hop Hconn.
  assert (∀ a c0, conn c0 = false →
            conn (backedOff a (logged EvOperation c0)) = false) as Hnext.
  { intros a c0 Hc0. unfold backedOff. by case_decide. }
  assert (∀ n a last c0, conn c0 = false →
            retryLoop operation (S n) a last c0
            = retryLoop operation n (S a) (Some E)
                (backedOff a (logged EvOperation c0))) as Hstep.
  { intros n a last c0 Hc0. apply retryLoop_transient; [| done].
    rewrite invoke_eq. by apply Hop. }
  unfold retryOperation. cbn [length retryDelays].
  rewrite !Hstep by (done || by repeat apply Hnext).
  cbn [retryLoop throwLast throw fst snd].
  split; [done |]. split; [| by repeat apply Hnext].
  unfold backedOff at 1. rewrite decide_False by (cbn; lia).
  cbn [logged trace].
  repeat (rewrite backedOff_trace by (cbn; lia); cbn [logged trace]).
  rewrite <- !app_assoc. reflexivity.
Qed.

(** The same, as the connector it leaves: the timer has run for the four
    waits and nothing else of the world has changed. *)
Lemma retry_guard_state {T} (operation : M T) (E : JsError)
    (c : Connector) :
  isTransientError E = true →
  (∀ c0, conn c0 = false → operation c0 = (Throw E, c0)) →
  conn c = false →
  retryOperation operation c
  = (Throw E,
     mkConnector (conn c) (config c)
       (elapse 8000 (elapse 4000 (elapse 2000 (elapse 1000 (world c)))))
       (trace c ++ [EvOperation; EvTimeout 1000;
                    EvOperation; EvTimeout 2000;
                    EvOperation; EvTimeout 4000;
                    EvOperation; EvTimeout 8000;
                    EvOperation])).
Proof.
  intros Ht Hop Hconn.
  assert (∀ a c0, conn c0 = false →
            conn (backedOff a (logged EvOperation c0)) = false) as Hnext.
  { intros a c0 Hc0. unfold backedOff. by case_decide. }
  assert (∀ n a last c0, conn c0 = false →
            retryLoop operation (S n) a last c0
            = retryLoop operation n (S a) (Some E)
                (backedOff a (logged EvOperation c0))) as Hstep.
  { intros n a last c0 Hc0. apply retryLoop_transient; [| done].
    rewrite invoke_eq. by apply Hop. }
  unfold retryOperation. cbn [length retryDelays].
  rewrite !Hstep by (done || by repeat apply Hnext).
  cbn [retryLoop throwLast throw]. f_equal.
  destruct (backedOff_slept (logged EvOperation c)) as (-> & _).
  destruct (backedOff_slept (logged EvOperation
              (slept 1000 (logged EvOperation c)))) as (_ & -> & _).
  destruct (backedOff_slept (logged EvOperation
              (slept 2000 (logged EvOperation
                 (slept 1000 (logged EvOperation c))))))
    as (_ & _ & -> & _).
  destruct (backedOff_slept (logged EvOperation
              (slept 4000 (logged EvOperation
                 (slept 2000 (logged EvOperation
                    (slept 1000 (logged EvOperation c))))))))
    as (_ & _ & _ & -> & _).
  destruct (backedOff_slept (logged EvOperation
              (slept 8000 (logged EvOperation
                 (slept 4000 (logged EvOperation
                    (slept 2000 (logged EvOperation
                       (slept 1000 (logged EvOperation c))))))))))
    as (_ & _ & _ & _ & ->).
  unfold logged, slept. cbn [conn config world trace]. f_equal.
  by rewrite <- !app_assoc.
Qed.

(** X3.  On a connector that is not connected the three wrapped calls
    are retried like any transient failure: five invocations, waits of
    1000, 2000, 4000 and 8000 ms, no request made, and the rejection
    "Not connected to Salesforce" at the end; of the world nothing has
    changed but the time the four waits took. *)
Theorem not_connected_is_retried (d : JsRecord) (c : Connector) :
  conn c = false →
  let events := [EvOperation; EvTimeout 1000;
                 EvOperation; EvTimeout 2000;
                 EvOperation; EvTimeout 4000;
                 EvOperation; EvTimeout 8000;
                 EvOperation] in
  let waited :=
    elapse 8000 (elapse 4000 (elapse 2000 (elapse 1000 (world c)))) in
  ((upsertProperty d c).1 = Throw (Error "Not connected to Salesforce")
   ∧ trace (upsertProperty d c).2 = trace c ++ events
   ∧ world (upsertProperty d c).2 = waited)
  ∧ ((upsertQuote d c).1 = Throw (Error "Not connected to Salesforce")
     ∧ trace (upsertQuote d c).2 = trace c ++ events
     ∧ world (upsertQuote d c).2 = waited)
  ∧ ((uploadAttachment d c).1 = Throw (Error "Not connected to Salesforce")
     ∧ trace (uploadAttachment d c).2 = trace c ++ events
     ∧ world (uploadAttachment d c).2 = waited).
Proof.
  intros Hconn events waited.
  assert (∀ rest : M string,
    let operation :=
      bind getConn (λ connected,
        if negb connected then throw (Error "Not connected to Salesforce")
        else rest) in
    (retryOperation operation c).1
      = Throw (Error "Not connected to Salesforce")
    ∧ trace (retryOperation operation c).2 = trace c ++ events
    ∧ world (retryOperation operation c).2 = waited) as Hany.
  { intros rest operation.
    rewrite (retry_guard_state operation
               (Error "Not connected to Salesforce") c);
      [done | reflexivity | | done].
    intros c0 Hc0. unfold operation. rewrite bind_getConn, Hc0.
    reflexivity. }
  split; [| split].
  - unfold upsertProperty, mbind, M_bind. apply Hany.
  - unfold upsertQuote, mbind, M_bind. apply Hany.
  - unfold uploadAttachment, mbind, M_bind. apply Hany.
Qed.

(** X4.  [initialize] keeps the configuration and marks the connector
    connected before it logs in, so also when the login is rejected: the
    outcome is that of the one login, and a [create] that follows finds
    the connector connected and makes its request. *)
Theorem initialize_then_create (cfg : SalesforceConfig)
    (objectType : string) (d : JsRecord) (c : Connector) :
  let url := orDefault (loginUrl cfg) "https://test.salesforce.com" in
  let secret := password cfg +:+ securityToken cfg in
  (initialize cfg c).1 = (jsforce_login url (username cfg) secret (world c)).1
  ∧ conn (initialize cfg c).2 = true
  ∧ config (initialize cfg c).2 = Some cfg
  ∧ trace (create objectType d (initialize cfg c).2).2
    = trace c ++ [EvLogin url (username cfg) secret;
                  EvRequest (SfCreate objectType d)].
Proof.
  intros url secret.
  assert (conn (initialize cfg c).2 = true) as Hconn.
  { unfold initialize, mbind, M_bind, bind, tryCatch, setConfig, setConn,
      log, call, throw. simpl.
    by destruct (jsforce_login _ _ _ _) as [[[]|e] w]. }
  split; [| split; [done | split]].
  - unfold initialize, mbind, M_bind, bind, tryCatch, setConfig, setConn,
      log, call, throw. simpl.
    by destruct (jsforce_login _ _ _ _) as [[[]|e] w].
  - unfold initialize, mbind, M_bind, bind, tryCatch, setConfig, setConn,
      log, call, throw. simpl.
    by destruct (jsforce_login _ _ _ _) as [[[]|e] w].
  - rewrite create_connected_trace by done.
    rewrite initialize_trace. by rewrite <- app_assoc.
Qed.

(** *** What the retry wrapper never does *)

Lemma invocations_app (a b : list Event) :
  invocations (a ++ b) = invocations a + invocations b.
Proof. unfold invocations. by rewrite omap_app, length_app. Qed.

Lemma logins_app (a b : list Event) :
  logins (a ++ b) = logins a + logins b.
Proof. unfold logins. by rewrite omap_app, length_app. Qed.

Lemma timeouts_app (a b : list Event) :
  timeouts (a ++ b) = timeouts a ++ timeouts b.
Proof. unfold timeouts. by rewrite omap_app. Qed.

(** The wait, if any, between iteration [attempt] and the next. *)
Lemma backedOff_wrapperTrace (attempt : nat) (c : Connector) :
  wrapperTrace (trace (backedOff attempt c))
  = wrapperTrace (trace c)
    ++ (if decide (attempt < length retryDelays - 1)
        then [EvTimeout (retryDelays !!! attempt)] else []).
Proof.
  unfold backedOff. case_decide.
  - cbn [slept trace]. by rewrite wrapperTrace_snoc.
  - by rewrite app_nil_r.
Qed.

Lemma waits_step (attempt n : nat) (ts : list Z) :
  ts `prefix_of` take n (drop (S attempt) (take 4 retryDelays)) →
  timeouts (if decide (attempt < length retryDelays - 1)
            then [EvTimeout (retryDelays !!! attempt)] else []) ++ ts
  `prefix_of` take (S n) (drop attempt (take 4 retryDelays)).
Proof.
  intros Hts. case_decide as Ha; cbn [length retryDelays] in Ha.
  - destruct attempt as [|[|[|[|attempt]]]]; [| | | | lia];
      cbn in *; by apply prefix_cons.
  - destruct attempt as [|[|[|[|attempt]]]]; [lia | lia | lia | lia |].
    cbn in *. rewrite take_nil in Hts.
    by rewrite drop_nil, take_nil.
Qed.

Lemma retryLoop_bounds {T} (operation : M T) (n attempt : nat)
    (lastError : option JsError) (c : Connector) :
  (∀ c0, wrapperTrace (trace (operation c0).2) = wrapperTrace (trace c0)) →
  ∃ evs,
    wrapperTrace (trace (retryLoop operation n attempt lastError c).2)
      = wrapperTrace (trace c) ++ evs
    ∧ invocations evs ≤ S n
    ∧ logins evs ≤ 1
    ∧ timeouts evs `prefix_of` take n (drop attempt (take 4 retryDelays)).
Proof.
  intros Hq. revert attempt lastError c.
  induction n as [|n IH]; intros attempt lastError c.
  - exists []. rewrite app_nil_r.
    split; [by destruct lastError |]. cbn. repeat split; [lia | lia |].
    apply prefix_nil.
  - rewrite retryLoop_step, invoke_eq.
    pose proof (Hq (logged EvOperation c)) as Hop.
    cbn [logged trace] in Hop. rewrite wrapperTrace_snoc in Hop by done.
    destruct (operation (logged EvOperation c)) as [[v|e] c1];
      cbn [snd] in Hop.
    { exists [EvOperation]. split; [done |]. cbn.
      repeat split; [lia | lia | apply prefix_nil]. }
    destruct (if decide (errorCode e = Some "INVALID_SESSION_ID")
              then config c1 else None) as [cfg|].
    + pose proof (initialize_trace cfg c1) as Hi.
      destruct (initialize cfg c1) as [[[]|e'] c2]; cbn [snd] in Hi.
      * rewrite invoke_eq, Hq. cbn [logged trace].
        rewrite wrapperTrace_snoc, Hi, wrapperTrace_snoc, Hop by done.
        eexists [EvOperation; EvLogin _ _ _; EvOperation].
        split; [by rewrite <- !app_assoc |]. cbn.
        repeat split; [lia | lia | apply prefix_nil].
      * cbn [snd]. rewrite Hi, wrapperTrace_snoc, Hop by done.
        eexists [EvOperation; EvLogin _ _ _].
        split; [by rewrite <- !app_assoc |]. cbn.
        repeat split; [lia | lia | apply prefix_nil].
    + destruct (isValidationError e).
      { exists [EvOperation]. split; [done |]. cbn.
        repeat split; [lia | lia | apply prefix_nil]. }
      destruct (IH (S attempt) (Some e) (backedOff attempt c1))
        as (evs & He & Hinv & Hlog & Hts).
      rewrite He, backedOff_wrapperTrace, Hop.
      exists ([EvOperation]
              ++ (if decide (attempt < length retryDelays - 1)
                  then [EvTimeout (retryDelays !!! attempt)] else [])
              ++ evs).
      split; [by rewrite <- !app_assoc |].
      rewrite !invocations_app, !logins_app, !timeouts_app.
      split; [| split].
      * case_decide; cbn; lia.
      * case_decide; cbn; lia.
      * cbn [timeouts omap list_omap app]. by apply waits_step.
Qed.

Lemma totalWait_prefix (ts : list Z) :
  ts `prefix_of` [1000; 2000; 4000; 8000]%Z → (totalWait ts ≤ 15000)%Z.
Proof.
  intros [k Hk].
  destruct ts as [|t1 [|t2 [|t3 [|t4 [|t5 ts]]]]]; simplify_eq/=; lia.
Qed.

(** X5.  Whatever an operation does (short of acting for the wrapper
    itself), one call of [retryOperation] invokes it at least once and at
    most six times, logs in at most once, and its waits are the first
    entries of 1000, 2000, 4000, 8000 ms in order: never more than 15 s in
    all, and never the 16 s of the schedule. *)
Theorem retryOperation_bounds {T} (operation : M T) (c : Connector) :
  (∀ c0, wrapperTrace (trace (operation c0).2) = wrapperTrace (trace c0)) →
  ∃ evs,
    wrapperTrace (trace (retryOperation operation c).2)
      = wrapperTrace (trace c) ++ evs
    ∧ invocations evs ≤ 6
    ∧ logins evs ≤ 1
    ∧ timeouts evs `prefix_of` [1000; 2000; 4000; 8000]%Z
    ∧ (totalWait (timeouts evs) ≤ 15000)%Z.
Proof.
  intros Hq.
  destruct (retryLoop_bounds operation 5 0 None c Hq)
    as (evs & He & Hinv & Hlog & Hts).
  exists evs. cbn in Hts.
  repeat split; [done | done | done | done | by apply totalWait_prefix].
Qed.

Lemma auth_is_not_validation (e : JsError) :
  isAuthError e = true → isValidationError e = false.
Proof.
  unfold isAuthError, isValidationError. intros He.
  apply bool_decide_eq_true in He. by rewrite He.
Qed.

Lemma retryLoop_unconfigured {T} (operation : M T) (n attempt : nat)
    (lastError : option JsError) (c c1 : Connector) (e : JsError) :
  invoke operation c = (Throw e, c1) →
  isAuthError e = true →
  config c1 = None →
  retryLoop operation (S n) attempt lastError c =
    retryLoop operation n (S attempt) (Some e) (backedOff attempt c1).
Proof.
  intros Hop Hauth Hcfg. rewrite retryLoop_step, Hop, Hcfg.
  rewrite auth_is_not_validation by done. by case_decide.
Qed.

Lemma config_backedOff (attempt : nat) (c : Connector) :
  config (backedOff attempt c) = config c.
Proof. unfold backedOff. by case_decide. Qed.

(** X7.  Without a configuration there is no re-authentication: on a
    connector whose [config] is unset, an operation that finds the session
    expired each time is retried like a transient failure, five
    invocations with the timer running 1000, 2000, 4000 and 8000 ms
    between them, and the wrapper never logs in: its outcome is that of
    the fifth invocation. *)
Theorem expired_session_unconfigured {T} (operation : M T)
    (c : Connector) :
  (∀ c0, ∃ e c1, operation c0 = (Throw e, c1)
                 ∧ isAuthError e = true
                 ∧ config c1 = config c0
                 ∧ wrapperTrace (trace c1) = wrapperTrace (trace c0)) →
  config c = None →
  ∃ e c',
    retryOperation operation c = (Throw e, c')
    ∧ isAuthError e = true
    ∧ config c' = None
    ∧ wrapperTrace (trace c') =
        wrapperTrace (trace c) ++
          [EvOperation; EvTimeout 1000;
           EvOperation; EvTimeout 2000;
           EvOperation; EvTimeout 4000;
           EvOperation; EvTimeout 8000;
           EvOperation]
    ∧ invoke operation
        (slept 8000 (invoke operation
           (slept 4000 (invoke operation
              (slept 2000 (invoke operation
                 (slept 1000 (invoke operation c).2)).2)).2)).2)
      = (Throw e, c').
Proof.
  intros Hfail Hcfg. unfold retryOperation. cbn [length retryDelays].
  destruct (Hfail (logged EvOperation c)) as (e1 & c1 & H1 & A1 & C1 & W1).
  cbn [logged config] in C1. rewrite Hcfg in C1.
  rewrite (retryLoop_unconfigured _ _ _ _ _ c1 e1) by done.
  destruct (Hfail (logged EvOperation (backedOff 0 c1)))
    as (e2 & c2 & H2 & A2 & C2 & W2).
  cbn [logged config] in C2. rewrite config_backedOff, C1 in C2.
  rewrite (retryLoop_unconfigured _ _ _ _ _ c2 e2) by done.
  destruct (Hfail (logged EvOperation (backedOff 1 c2)))
    as (e3 & c3 & H3 & A3 & C3 & W3).
  cbn [logged config] in C3. rewrite config_backedOff, C2 in C3.
  rewrite (retryLoop_unconfigured _ _ _ _ _ c3 e3) by done.
  destruct (Hfail (logged EvOperation (backedOff 2 c3)))
    as (e4 & c4 & H4 & A4 & C4 & W4).
  cbn [logged config] in C4. rewrite config_backedOff, C3 in C4.
  rewrite (retryLoop_unconfigured _ _ _ _ _ c4 e4) by done.
  destruct (Hfail (logged EvOperation (backedOff 3 c4)))
    as (e5 & c5 & H5 & A5 & C5 & W5).
  cbn [logged config] in C5. rewrite config_backedOff, C4 in C5.
  rewrite (retryLoop_unconfigured _ _ _ _ _ c5 e5) by done.
  exists e5, c5. split; [reflexivity |]. split; [done |]. split; [done |].
  split.
  - rewrite W5. cbn [logged trace].
    rewrite wrapperTrace_snoc, backedOff_trace, wrapperTrace_snoc, W4
      by (done || (cbn; lia)).
    cbn [logged trace].
    rewrite wrapperTrace_snoc, backedOff_trace, wrapperTrace_snoc, W3
      by (done || (cbn; lia)).
    cbn [logged trace].
    rewrite wrapperTrace_snoc, backedOff_trace, wrapperTrace_snoc, W2
      by (done || (cbn; lia)).
    cbn [logged trace].
    rewrite wrapperTrace_snoc, backedOff_trace, wrapperTrace_snoc, W1
      by (done || (cbn; lia)).
    cbn [logged trace].
    rewrite wrapperTrace_snoc by done.
    rewrite <- !app_assoc. reflexivity.
  - rewrite <- invoke_eq in H1, H2, H3, H4, H5.
    rewrite H1. cbn [snd]. change (slept 1000 c1) with (backedOff 0 c1).
    rewrite H2. cbn [snd]. change (slept 2000 c2) with (backedOff 1 c2).
    rewrite H3. cbn [snd]. change (slept 4000 c3) with (backedOff 2 c3).
    rewrite H4. cbn [snd]. change (slept 8000 c4) with (backedOff 3 c4).
    exact H5.
Qed.

(** *** The two other retry helpers *)

Lemma backoffLoop_step {T} (operation : M T) (n : nat)
    (attempt maxRetries delay : Z) (c : Connector) :
  backoffLoop operation (S n) attempt maxRetries delay c =
    match invoke operation c with
    | (Ok v, c1) => (Ok (Some v), c1)
    | (Throw e, c1) =>
        if (attempt =? maxRetries - 1)%Z then (Throw e, c1)
        else backoffLoop operation n (attempt + 1)%Z maxRetries
               (delay * 2)%Z (slept delay c1)
    end.
Proof.
  cbn [backoffLoop]. unfold tryCatch, mbind, mret, M_bind, M_ret.
  unfold bind at 1. destruct (invoke operation c) as [[v|e] c1];
    [reflexivity |].
  by destruct (attempt =? maxRetries - 1)%Z.
Qed.

Lemma backoffLoop_all_fail {T} (operation : M T) (n : nat)
    (attempt maxRetries delay : Z) (c : Connector) :
  (∀ c0, ∃ e c1, operation c0 = (Throw e, c1)
                 ∧ wrapperTrace (trace c1) = wrapperTrace (trace c0)) →
  (attempt + Z.of_nat (S n) = maxRetries)%Z →
  ∃ e c5 c' evs,
    backoffLoop operation (S n) attempt maxRetries delay c = (Throw e, c')
    ∧ invoke operation c5 = (Throw e, c')
    ∧ wrapperTrace (trace c') = wrapperTrace (trace c) ++ evs
    ∧ invocations evs = S n
    ∧ logins evs = 0
    ∧ timeouts evs = ((λ k, delay * 2 ^ Z.of_nat k)%Z <$> seq 0 n)
    ∧ c5 = backedOffTimes operation n delay c.
Proof.
  intros Hfail. revert attempt delay c.
  induction n as [|n IH]; intros attempt delay c Hlen.
  - rewrite backoffLoop_step, invoke_eq.
    destruct (Hfail (logged EvOperation c)) as (e & c1 & Hop & Hw).
    rewrite Hop. rewrite (proj2 (Z.eqb_eq _ _)) by lia.
    exists e, c, c1, [EvOperation].
    split; [done |]. split; [by rewrite invoke_eq |].
    split; [| done].
    rewrite Hw. cbn [logged trace]. by rewrite wrapperTrace_snoc.
  - rewrite backoffLoop_step, invoke_eq.
    destruct (Hfail (logged EvOperation c)) as (e & c1 & Hop & Hw).
    rewrite Hop. rewrite (proj2 (Z.eqb_neq _ _)) by lia.
    destruct (IH (attempt + 1)%Z (delay * 2)%Z (slept delay c1))
      as (e' & c5 & c' & evs & Hrun & Hlast & Htr & Hinv & Hlog & Hts
          & Hc5);
      [lia |].
    exists e', c5, c', ([EvOperation; EvTimeout delay] ++ evs).
    split; [done |]. split; [done |].
    split; [| split; [| split; [| split]]].
    + rewrite Htr. cbn [slept trace].
      rewrite wrapperTrace_snoc, Hw by done. cbn [logged trace].
      rewrite wrapperTrace_snoc by done. by rewrite <- !app_assoc.
    + rewrite invocations_app, Hinv. reflexivity.
    + rewrite logins_app, Hlog. reflexivity.
    + rewrite timeouts_app, Hts. cbn [timeouts omap list_omap app seq].
      rewrite fmap_cons, <- (fmap_S_seq 0 n), <- list_fmap_compose.
      f_equal; [cbn; lia |].
      apply list_fmap_ext. intros i k _. cbn [compose].
      rewrite Nat2Z.inj_succ, Z.pow_succ_r by lia. lia.
    + cbn [backedOffTimes]. by rewrite invoke_eq, Hop.
Qed.

(** X8.  When the operation is rejected each time,
    [retryWithExponentialBackoff] with [maxRetries = n + 1] invokes it
    [n + 1] times, waits between two invocations the initial delay
    doubled each time ([initialDelay * 2^k] before invocation [k + 1], [n]
    waits in all), never logs in, and rejects with the error of the last
    invocation, whatever kind of error it is; that invocation is made on
    the connector as the [n] rejected invocations and the timer running
    for the [n] waits left it. *)
Theorem backoff_all_fail {T} (operation : M T) (n : nat)
    (initialDelay : Z) (c : Connector) :
  (∀ c0, ∃ e c1, operation c0 = (Throw e, c1)
                 ∧ wrapperTrace (trace c1) = wrapperTrace (trace c0)) →
  ∃ e c5 c' evs,
    retryWithExponentialBackoff operation (Z.of_nat (S n)) initialDelay c
      = (Throw e, c')
    ∧ invoke operation c5 = (Throw e, c')
    ∧ wrapperTrace (trace c') = wrapperTrace (trace c) ++ evs
    ∧ invocations evs = S n
    ∧ logins evs = 0
    ∧ timeouts evs = ((λ k, initialDelay * 2 ^ Z.of_nat k)%Z <$> seq 0 n)
    ∧ c5 = backedOffTimes operation n initialDelay c.
Proof.
  intros Hfail. unfold retryWithExponentialBackoff.
  rewrite Nat2Z.id. apply backoffLoop_all_fail; [done | lia].
Qed.

(** X9.  With [maxRetries] zero or negative
    [retryWithExponentialBackoff] does not invoke the operation at all and
    resolves, with [undefined]; and an operation that resolves at its
    first invocation is invoked once, with no wait. *)
Theorem backoff_edges {T} (operation : M T) (maxRetries initialDelay : Z)
    (c : Connector) :
  ((maxRetries ≤ 0)%Z →
     retryWithExponentialBackoff operation maxRetries initialDelay c
     = (Ok None, c))
  ∧ (∀ v c1, (1 ≤ maxRetries)%Z →
       invoke operation c = (Ok v, c1) →
       retryWithExponentialBackoff operation maxRetries initialDelay c
       = (Ok (Some v), c1)).
Proof.
  unfold retryWithExponentialBackoff. split.
  - intros Hle. by rewrite Z2Nat.nonpos.
  - intros v c1 Hge Hop.
    destruct (Z.to_nat maxRetries) as [|n] eqn:Hn; [lia |].
    by rewrite backoffLoop_step, Hop.
Qed.

(** *** The drain with retries *)

Lemma withRetryLoop_step (drain : nat → State → Result SyncResults * State)
    (n : nat) (attempt maxRetries retryDelay : Z)
    (lastError : option JsError) (st : State) :
  withRetryLoop drain (S n) attempt maxRetries retryDelay lastError st =
    match drain (Z.to_nat attempt) st with
    | (Ok results, st') => (Ok results, st')
    | (Throw e, st') =>
        withRetryLoop drain n (attempt + 1)%Z maxRetries retryDelay (Some e)
          (if (attempt + 1 <? maxRetries)%Z
           then sleepState retryDelay st' else st')
    end.
Proof.
  cbn [withRetryLoop].
  by destruct (drain (Z.to_nat attempt) st) as [[results|e] st'].
Qed.

(** The loop from its call [a + 1] on, the calls before it rejected, when
    [m] more calls are rejected before the one that ends it. *)
Lemma withRetryLoop_rounds (drain : nat → State → Result SyncResults * State)
    (maxRetries retryDelay : Z) (st : State) (m : nat) :
  ∀ (a : nat) (lastError : option JsError),
    (Z.of_nat (a + m) < maxRetries)%Z →
    (∀ j, a ≤ j < a + m →
       ∃ e, (drain j (rejectedRounds drain retryDelay j st)).1 = Throw e) →
    ((Z.of_nat (a + m) + 1 = maxRetries)%Z
     ∨ ∃ r, (drain (a + m)
               (rejectedRounds drain retryDelay (a + m) st)).1 = Ok r) →
    withRetryLoop drain (Z.to_nat (maxRetries - Z.of_nat a)) (Z.of_nat a)
                  maxRetries retryDelay lastError
                  (rejectedRounds drain retryDelay a st)
    = drain (a + m) (rejectedRounds drain retryDelay (a + m) st).
Proof.
  induction m as [|m IH]; intros a lastError Hlt Hfail Hlast.
  - rewrite Nat.add_0_r in *.
    replace (Z.to_nat (maxRetries - Z.of_nat a))
      with (S (Z.to_nat (maxRetries - (Z.of_nat a + 1)))) by lia.
    rewrite withRetryLoop_step, Nat2Z.id.
    destruct (drain a (rejectedRounds drain retryDelay a st))
      as [[r|e] st'] eqn:Hd; [done |].
    destruct Hlast as [Hend|[r Hr]]; [| done].
    rewrite (proj2 (Z.ltb_ge _ _)) by lia.
    replace (Z.to_nat (maxRetries - (Z.of_nat a + 1))) with 0 by lia.
    reflexivity.
  - replace (Z.to_nat (maxRetries - Z.of_nat a))
      with (S (Z.to_nat (maxRetries - (Z.of_nat a + 1)))) by lia.
    rewrite withRetryLoop_step, Nat2Z.id.
    destruct (Hfail a) as [e He]; [lia |].
    destruct (drain a (rejectedRounds drain retryDelay a st))
      as [[r|e'] st'] eqn:Hd; [done |].
    rewrite (proj2 (Z.ltb_lt _ _)) by lia.
    assert (sleepState retryDelay st'
            = rejectedRounds drain retryDelay (S a) st) as ->
      by (cbn [rejectedRounds]; by rewrite Hd).
    replace (Z.of_nat a + 1)%Z with (Z.of_nat (S a)) by lia.
    replace (a + S m) with (S a + m) in * by lia.
    apply IH; [done | | done].
    intros j Hj. apply Hfail. lia.
Qed.

(** X10.  [processSyncQueueWithRetry] calls the drain until a call
    resolves or [maxRetries] calls have been rejected.  When its first
    [k] calls are rejected, [k] less than [maxRetries], and the next call
    resolves or is the last one allowed, the outcome of the method,
    result and state, is that of this call, made on the instance as the
    [k] rejected calls left it, the timer having run for [retryDelay]
    after each of them: no wait follows the last call, and when that one
    is rejected too its rejection is the one the method rejects with. *)
Theorem drain_retried_until_resolved
    (drain : nat → State → Result SyncResults * State) (k : nat)
    (maxRetries retryDelay : Z) (st : State) :
  (Z.of_nat k < maxRetries)%Z →
  (∀ j, j < k →
     ∃ e, (drain j (rejectedRounds drain retryDelay j st)).1 = Throw e) →
  ((Z.of_nat k + 1 = maxRetries)%Z
   ∨ ∃ r, (drain k (rejectedRounds drain retryDelay k st)).1 = Ok r) →
  processSyncQueueWithRetry drain maxRetries retryDelay st
  = drain k (rejectedRounds drain retryDelay k st).
Proof.
  intros Hlt Hfail Hlast. unfold processSyncQueueWithRetry.
  pose proof (withRetryLoop_rounds drain maxRetries retryDelay st k 0 None)
    as Hloop.
  cbn [Nat.add rejectedRounds Z.of_nat] in Hloop.
  rewrite Z.sub_0_r in Hloop.
  apply Hloop; [done | | done].
  intros j Hj. apply Hfail. lia.
Qed.

End WithWorld.

Import Fixture MoreFixture.

Lemma create_single_request_witness :
  @create scripted "Bid__c" ∅ unconnected
    = (Throw (Error "Not connected to Salesforce"), unconnected)
  ∧ trace (@create scripted "Bid__c" ∅
             (connectedTo (mkScript 0 [] [Throw networkDown]))).2
    = [EvRequest (SfCreate "Bid__c" ∅)]
  ∧ (@create scripted "Bid__c" ∅
       (connectedTo (mkScript 0 [] [Throw networkDown]))).1
    = Throw networkDown.
Proof.
  split.
  - apply (@create_single_request scripted "Bid__c" ∅ unconnected).
    reflexivity.
  - destruct (@create_single_request scripted "Bid__c" ∅
                (connectedTo (mkScript 0 [] [Throw networkDown])))
      as [_ Hconn].
    destruct Hconn as [Htr Hres]; [reflexivity |].
    split; [exact Htr | exact Hres].
Defined.

Lemma syncItem_unknown_type_witness :
  @syncItem scripted host invoice4 (connectedTo (mkScript 0 [] []))
  = (Throw (Error "Unknown sync item type: invoice"),
     logged (EvSyncItem invoice4) (connectedTo (mkScript 0 [] []))).
Proof.
  apply (@syncItem_unknown_type scripted host invoice4). reflexivity.
Defined.

Lemma not_connected_is_retried_witness :
  (@uploadAttachment scripted ∅ unconnected).1
    = Throw (Error "Not connected to Salesforce")
  ∧ requests (trace (@uploadAttachment scripted ∅ unconnected).2) = []
  ∧ timeouts (trace (@uploadAttachment scripted ∅ unconnected).2)
    = [1000; 2000; 4000; 8000]%Z.
Proof.
  destruct (@not_connected_is_retried scripted host ∅ unconnected)
    as (_ & _ & Hres & Htr & _); [reflexivity |].
  rewrite Htr. split; [exact Hres |]. split; reflexivity.
Defined.

Lemma retryOperation_bounds_witness :
  ∃ evs,
    wrapperTrace
      (trace (@retryOperation scripted _ alwaysRejects
                (connectedTo (mkScript 0 [] []))).2)
      = wrapperTrace (trace (connectedTo (mkScript 0 [] []))) ++ evs
    ∧ invocations evs ≤ 6
    ∧ Rest.logins evs ≤ 1
    ∧ timeouts evs `prefix_of` [1000; 2000; 4000; 8000]%Z
    ∧ (totalWait (timeouts evs) ≤ 15000)%Z.
Proof.
  apply (@retryOperation_bounds scripted _ alwaysRejects).
  intros c0. reflexivity.
Defined.

Lemma expired_session_unconfigured_witness :
  ∃ e c',
    @retryOperation scripted _ alwaysExpired (unconfigured (mkScript 0 [] []))
      = (Throw e, c')
    ∧ isAuthError e = true
    ∧ config c' = None
    ∧ wrapperTrace (trace c') =
        wrapperTrace (trace (unconfigured (mkScript 0 [] []))) ++
          [EvOperation; EvTimeout 1000;
           EvOperation; EvTimeout 2000;
           EvOperation; EvTimeout 4000;
           EvOperation; EvTimeout 8000;
           EvOperation].
Proof.
  destruct (@expired_session_unconfigured scripted _ alwaysExpired
              (unconfigured (mkScript 0 [] [])))
    as (e & c' & Hrun & Hauth & Hcfg & Htrace & _).
  - intros c0. exists sessionExpired, c0. repeat split; reflexivity.
  - reflexivity.
  - exists e, c'. repeat split; assumption.
Defined.

(** Three tries from 100 ms: waits of 100 and 200 ms. *)
Lemma backoff_all_fail_witness :
  ∃ e c5 c' evs,
    @retryWithExponentialBackoff scripted _ alwaysRejects 3 100
      (connectedTo (mkScript 0 [] [])) = (Throw e, c')
    ∧ @invoke scripted _ alwaysRejects c5 = (Throw e, c')
    ∧ wrapperTrace (trace c')
      = wrapperTrace (trace (connectedTo (mkScript 0 [] []))) ++ evs
    ∧ invocations evs = 3
    ∧ Rest.logins evs = 0
    ∧ timeouts evs = [100; 200]%Z.
Proof.
  destruct (@backoff_all_fail scripted _ alwaysRejects 2 100
              (connectedTo (mkScript 0 [] [])))
    as (e & c5 & c' & evs & Hrun & Hlast & Htrace & Hinv & Hlog & Hts & _).
  - intros c0. exists networkDown, c0. split; reflexivity.
  - exists e, c5, c', evs. repeat split; assumption.
Defined.

Lemma backoff_edges_witness :
  @retryWithExponentialBackoff scripted _ attach 0 100
    (connectedTo (mkScript 0 [] []))
    = (Ok None, connectedTo (mkScript 0 [] []))
  ∧ (@retryWithExponentialBackoff scripted _ attach 3 100
       (connectedTo (mkScript 0 [] []))).1 = Ok (Some "sf-1").
Proof.
  split.
  - apply (@backoff_edges scripted _ attach 0 100). lia.
  - destruct (@backoff_edges scripted _ attach 3 100
                (connectedTo (mkScript 0 [] []))) as [_ Hfirst].
    erewrite Hfirst; [reflexivity | lia | reflexivity].
Defined.

(** The drain of the test suite: two calls are rejected, the third
    resolves, made two waits of 100 ms after the start.  And the real
    drain, which resolves at once: no wait. *)
Lemma drain_retried_until_resolved_witness :
  (@processSyncQueueWithRetry scripted mockProcessSyncQueue 3 100
     oneRejected).1
    = Ok (mkResults 2 2 0 None)
  ∧ time (@world scripted
            (@salesforce scripted
               (@processSyncQueueWithRetry scripted mockProcessSyncQueue
                  3 100 oneRejected).2))
    = 172800200%Z
  ∧ @processSyncQueueWithRetry scripted realDrain 3 100 oneRejected
    = (Ok (@processSyncQueue scripted host oneRejected).1,
       (@processSyncQueue scripted host oneRejected).2).
Proof.
  split; [| split].
  - rewrite (@drain_retried_until_resolved scripted mockProcessSyncQueue
               2 3 100 oneRejected).
    + reflexivity.
    + lia.
    + intros [|[|j]] Hj; [by eexists | by eexists | lia].
    + left. lia.
  - rewrite (@drain_retried_until_resolved scripted mockProcessSyncQueue
               2 3 100 oneRejected).
    + reflexivity.
    + lia.
    + intros [|[|j]] Hj; [by eexists | by eexists | lia].
    + left. lia.
  - apply (@drain_retried_until_resolved scripted realDrain 0 3 100
             oneRejected).
    + lia.
    + intros j Hj. lia.
    + right. by eexists.
Defined.

End RestFacts.

(** ** The queue across operations *)

Module QueueFacts.

Import RetryFacts DbFacts CoordinatorFacts.

Section WithWorld.

Context {remote : RemoteWorld}.
Context {host : Conflict.DateHost}.

Lemma eligible_length (tbl : Db.Table) :
  length (Db.where_attempts_below 5 None tbl)
  = length (filter (λ it, attempts it < 5)%Z tbl).
Proof. by rewrite eligible_Permutation. Qed.

Lemma spent_or_eligible (tbl : Db.Table) :
  length (filter (λ it, attempts it < 5)%Z tbl)
  + length (filter (λ it, 5 ≤ attempts it)%Z tbl)
  = length tbl.
Proof.
  rewrite <- length_app.
  rewrite <- (filter_app_complement (λ it, 5 ≤ attempts it)%Z tbl) at 3.
  rewrite !length_app, Nat.add_comm. f_equal. f_equal.
  apply list_filter_iff. intros it. lia.
Qed.

Lemma processSyncQueue_total (st : State) :
  total (processSyncQueue st).1
  = length (Db.where_attempts_below 5 None (syncQueue st)).
Proof.
  unfold processSyncQueue.
  by destruct (processItems_counts
                 (Db.where_attempts_below 5 None (syncQueue st))
                 (mkResults
                    (length (Db.where_attempts_below 5 None (syncQueue st)))
                    0 0 (Some [])) st) as [-> _].
Qed.

Lemma status_pending_eligible (st : State) :
  status_pending (getQueueStatus st)
  = length (filter (λ it, attempts it < 5)%Z (syncQueue st)).
Proof.
  unfold getQueueStatus, Db.count, Db.count_attempts_aboveOrEqual.
  cbn [status_pending].
  pose proof (spent_or_eligible (syncQueue st)). lia.
Qed.

(** X11.  [getQueueStatus] counts every row once: [pending] is the number
    of rows with fewer than five attempts, [failed] the number of the
    others, [total] their sum; and [pending] is the [total] the next
    [processSyncQueue] reports. *)
Theorem status_counts (st : State) :
  let s := getQueueStatus st in
  status_total s = length (syncQueue st)
  ∧ status_pending s
    = length (filter (λ it, attempts it < 5)%Z (syncQueue st))
  ∧ status_failed s
    = length (filter (λ it, 5 ≤ attempts it)%Z (syncQueue st))
  ∧ status_total s = status_pending s + status_failed s
  ∧ status_pending s = total (processSyncQueue st).1.
Proof.
  intros s. unfold s, getQueueStatus, Db.count,
    Db.count_attempts_aboveOrEqual. cbn [status_total status_pending
    status_failed].
  pose proof (spent_or_eligible (syncQueue st)) as Hsum.
  rewrite processSyncQueue_total, eligible_length.
  repeat split; lia.
Qed.

Lemma add_row_eligible (row : SyncQueueItem) (tbl : Db.Table) :
  (attempts row < 5)%Z →
  row ∈ Db.where_attempts_below 5 None (tbl ++ [row]).
Proof.
  intros Hlt. rewrite eligible_Permutation.
  apply list_elem_of_filter. split; [done |].
  apply elem_of_app. right. by apply list_elem_of_singleton.
Qed.

(** X12.  [queueForSync] adds one row and changes nothing else: the row
    has the given type, operation and data, no attempts, no error, the
    time of the call as [createdAt] and an id no other row has.  It
    raises [pending] by one, leaves [failed] as it is, and the row is
    among those the next drain takes. *)
Theorem queueForSync_adds_pending (ty op : string) (payload : JsRecord)
    (st : State) :
  let st' := queueForSync ty op payload st in
  salesforce st' = salesforce st
  ∧ ∃ row,
      syncQueue st' = syncQueue st ++ [row]
      ∧ (type row, operation row, data row) = (ty, op, payload)
      ∧ (attempts row, lastAttempt row, error row) = (0%Z, None, None)
      ∧ createdAt row = clock (world (salesforce st))
      ∧ (∀ other, other ∈ syncQueue st → id other ≠ id row)
      ∧ row ∈ Db.where_attempts_below 5 None (syncQueue st')
      ∧ status_pending (getQueueStatus st')
        = S (status_pending (getQueueStatus st))
      ∧ status_failed (getQueueStatus st')
        = status_failed (getQueueStatus st).
Proof.
  intros st'. split; [done |].
  eexists. split; [reflexivity |]. cbn [type operation data attempts
    lastAttempt error createdAt id].
  split; [done |]. split; [done |]. split; [done |].
  split; [| split; [| split]].
  - intros other Hin Hid. apply nextId_above in Hin. lia.
  - by apply add_row_eligible.
  - rewrite !status_pending_eligible.
    unfold st', queueForSync, Db.add. cbn [syncQueue].
    rewrite filter_app, length_app.
    rewrite filter_cons_True by (cbn; lia). cbn. lia.
  - unfold getQueueStatus, Db.count_attempts_aboveOrEqual.
    cbn [status_failed]. unfold st', queueForSync, Db.add. cbn [syncQueue].
    rewrite filter_app, length_app.
    rewrite filter_cons_False by (cbn; lia). cbn. lia.
Qed.

(** *** What a drain does to the rows *)

Lemma delete_subseteq (key : Z) (tbl : Db.Table) (row : SyncQueueItem) :
  row ∈ Db.delete key tbl → row ∈ tbl ∧ id row ≠ key.
Proof.
  unfold Db.delete. intros Hin. apply list_elem_of_filter in Hin. tauto.
Qed.

Lemma update_origin (key att last : Z) (err : string) (tbl : Db.Table)
    (row' : SyncQueueItem) :
  row' ∈ Db.update key att last err tbl →
  ∃ row, row ∈ tbl
    ∧ (row' = row
       ∨ (id row = key
          ∧ row' = mkItem (id row) (type row) (operation row) (data row)
                          att (Some last) (Some err) (createdAt row))).
Proof.
  unfold Db.update. intros Hin.
  apply list_elem_of_fmap in Hin as (row & -> & Hrow).
  exists row. split; [done |]. case_decide; [right | left]; done.
Qed.

Lemma update_marks (key att last : Z) (err : string) (tbl : Db.Table)
    (row : SyncQueueItem) :
  row ∈ tbl → id row = key →
  mkItem (id row) (type row) (operation row) (data row)
         att (Some last) (Some err) (createdAt row)
  ∈ Db.update key att last err tbl.
Proof.
  intros Hin Hid. unfold Db.update. apply list_elem_of_fmap.
  exists row. split; [| done]. by rewrite decide_True.
Qed.

(** A drain adds no id. *)
Lemma processItems_ids (items : list SyncQueueItem) (r : SyncResults)
    (st : State) (row' : SyncQueueItem) :
  row' ∈ syncQueue (processItems items r st).2 →
  ∃ row, row ∈ syncQueue st ∧ id row = id row'.
Proof.
  revert r st. induction items as [|item rest IH]; intros r st Hin.
  - by exists row'.
  - cbn [processItems] in Hin.
    destruct (syncItem item (salesforce st)) as [[v|e] sf];
      apply IH in Hin as (row & Hrow & Hid); cbn [syncQueue] in Hrow.
    + apply delete_subseteq in Hrow as [Hrow _]. by exists row.
    + apply update_origin in Hrow as (row0 & Hrow0 & [->|[_ ->]]);
        by exists row0.
Qed.

Lemma processItems_bookkeeping (items : list SyncQueueItem)
    (r : SyncResults) (st : State) :
  NoDup (id <$> items) →
  (∀ item, item ∈ items → item ∈ syncQueue st) →
  ∀ item outcome,
    (item, outcome) ∈ deliveries items (salesforce st) →
    match outcome with
    | Ok _ =>
        ∀ row, row ∈ syncQueue (processItems items r st).2 →
               id row ≠ id item
    | Throw e =>
        ∃ t, mkItem (id item) (type item) (operation item) (data item)
                    (attempts item + 1) (Some t) (Some (message e))
                    (createdAt item)
             ∈ syncQueue (processItems items r st).2
    end.
Proof.
  revert r st. induction items as [|item rest IH];
    intros r st Hnd Hin it outcome Hd.
  - by apply elem_of_nil in Hd.
  - rewrite fmap_cons in Hnd. apply NoDup_cons in Hnd as [Hfresh Hnd].
    assert (∀ it', it' ∈ rest → id it' ≠ id item) as Hother.
    { intros it' Hit' Hid. apply Hfresh. rewrite <- Hid.
      by apply list_elem_of_fmap_2. }
    cbn [deliveries processItems] in *.
    destruct (syncItem item (salesforce st)) as [[v|e] sf]; cbn [fst snd] in Hd;
      apply elem_of_cons in Hd as [Hd|Hd].
    + injection Hd as -> ->. intros row Hrow.
      apply processItems_ids in Hrow as (row0 & Hrow0 & <-).
      cbn [syncQueue] in Hrow0.
      by apply delete_subseteq in Hrow0 as [_ Hne].
    + eapply IH; [done | | exact Hd].
      intros it' Hit'. cbn [syncQueue].
      apply delete_keeps; [apply Hin; by right | by apply Hother].
    + injection Hd as -> ->. exists (clock (world sf)).
      apply processItems_keeps.
      * cbn [syncQueue]. apply update_marks; [apply Hin; by left | done].
      * cbn [id]. intros it' Hit' Hid. by apply (Hother it').
    + eapply IH; [done | | exact Hd].
      intros it' Hit'. cbn [syncQueue].
      apply update_keeps; [apply Hin; by right | by apply Hother].
Qed.

Lemma eligible_ids_NoDup (tbl : Db.Table) :
  NoDup (id <$> tbl) →
  NoDup (id <$> Db.where_attempts_below 5 None tbl).
Proof.
  intros Hnd. rewrite eligible_Permutation.
  eapply sublist_NoDup; [exact Hnd |].
  apply fmap_sublist, sublist_filter.
Qed.

(** X13.  The bookkeeping of a drain, item by item (the ids of the table
    being distinct): an item whose delivery resolved has no row left under
    its id; an item whose delivery was rejected keeps its row, with
    [attempts] one higher than in the snapshot, the message of the error as
    [error], a [lastAttempt], and the rest as it was. *)
Theorem drain_bookkeeping (st : State) (item : SyncQueueItem)
    (outcome : Result string) :
  NoDup (id <$> syncQueue st) →
  (item, outcome)
    ∈ deliveries (Db.where_attempts_below 5 None (syncQueue st))
                 (salesforce st) →
  match outcome with
  | Ok _ =>
      ∀ row, row ∈ syncQueue (processSyncQueue st).2 → id row ≠ id item
  | Throw e =>
      ∃ t, mkItem (id item) (type item) (operation item) (data item)
                  (attempts item + 1) (Some t) (Some (message e))
                  (createdAt item)
           ∈ syncQueue (processSyncQueue st).2
  end.
Proof.
  intros Hnd Hd. unfold processSyncQueue.
  eapply processItems_bookkeeping; [| | exact Hd].
  - by apply eligible_ids_NoDup.
  - intros it Hit. by apply dequeued_eligible in Hit as [Hit _].
Qed.

Lemma processItems_monotone (tbl0 : Db.Table)
    (items : list SyncQueueItem) (r : SyncResults) (st : State) :
  NoDup (id <$> tbl0) →
  (∀ item, item ∈ items → item ∈ tbl0) →
  (∀ row', row' ∈ syncQueue st →
     ∃ row, row ∈ tbl0
       ∧ (id row', type row', operation row', data row', createdAt row')
         = (id row, type row, operation row, data row, createdAt row)
       ∧ (attempts row' = attempts row
          ∨ attempts row' = attempts row + 1)%Z) →
  ∀ row', row' ∈ syncQueue (processItems items r st).2 →
     ∃ row, row ∈ tbl0
       ∧ (id row', type row', operation row', data row', createdAt row')
         = (id row, type row, operation row, data row, createdAt row)
       ∧ (attempts row' = attempts row
          ∨ attempts row' = attempts row + 1)%Z.
Proof.
  intros Hnd. revert r st.
  induction items as [|item rest IH]; intros r st Hitems Hrel; [done |].
  cbn [processItems].
  destruct (syncItem item (salesforce st)) as [[v|e] sf];
    apply IH; try (intros it Hit; apply Hitems; by right);
    cbn [syncQueue]; intros row' Hrow'.
  - apply delete_subseteq in Hrow' as [Hrow' _]. by apply Hrel.
  - apply update_origin in Hrow' as (row1 & Hrow1 & [->|[Hid ->]]);
      [by apply Hrel |].
    destruct (Hrel row1 Hrow1) as (row & Hrow & Hsame & Hatt).
    exists row. split; [done |]. cbn [id type operation data createdAt
      attempts]. split; [done |]. right.
    assert (row = item) as ->; [| done].
    eapply id_inj_on; [exact Hnd | done | apply Hitems; by left |].
    injection Hsame as <- _ _ _ _. done.
Qed.

Lemma processItems_length (items : list SyncQueueItem) (r : SyncResults)
    (st : State) :
  length (syncQueue (processItems items r st).2) ≤ length (syncQueue st).
Proof.
  revert r st. induction items as [|item rest IH]; intros r st; [done |].
  cbn [processItems].
  destruct (syncItem item (salesforce st)) as [[v|e] sf];
    etrans; try apply IH; cbn [syncQueue].
  - apply length_filter.
  - unfold Db.update. by rewrite length_fmap.
Qed.

(** X14.  A drain never adds a row and never lowers a count (the ids of
    the table being distinct): every row afterwards is a row from before
    with the same id, type, operation, data and [createdAt], and with the
    same [attempts] or one more. *)
Theorem drain_monotone (st : State) :
  NoDup (id <$> syncQueue st) →
  length (syncQueue (processSyncQueue st).2) ≤ length (syncQueue st)
  ∧ ∀ row', row' ∈ syncQueue (processSyncQueue st).2 →
      ∃ row, row ∈ syncQueue st
        ∧ (id row', type row', operation row', data row', createdAt row')
          = (id row, type row, operation row, data row, createdAt row)
        ∧ (attempts row' = attempts row
           ∨ attempts row' = attempts row + 1)%Z.
Proof.
  intros Hnd. split; [apply processItems_length |].
  unfold processSyncQueue. apply processItems_monotone; [done | |].
  - intros it Hit. by apply dequeued_eligible in Hit as [Hit _].
  - intros row' Hrow'. exists row'. by repeat split; [| left].
Qed.

Lemma nothing_eligible (tbl : Db.Table) (limit : option nat) :
  Forall (λ row, 5 ≤ attempts row)%Z tbl →
  Db.where_attempts_below 5 limit tbl = [].
Proof.
  intros Hall. unfold Db.where_attempts_below.
  assert (filter (λ it, attempts it < 5)%Z tbl = []) as ->.
  { induction Hall as [|row tbl Hrow _ IH]; [done |].
    by rewrite filter_cons_False by lia. }
  by destruct limit as [[|n]|].
Qed.

(** X15.  With nothing to take, a drain does nothing: when every row has
    five attempts or more (an empty table included) both drains return
    zero counts and leave the queue and the connector exactly as they
    were; so does the batch drain with [batchSize] zero, whatever the
    queue. *)
Theorem drain_of_nothing (st : State) (batchSize : option nat) :
  (Forall (λ row, 5 ≤ attempts row)%Z (syncQueue st) →
     processSyncQueue st = (mkResults 0 0 0 (Some []), st)
     ∧ processSyncQueueBatch batchSize st = (mkResults 0 0 0 None, st))
  ∧ processSyncQueueBatch (Some 0) st = (mkResults 0 0 0 None, st).
Proof.
  split.
  - intros Hall. unfold processSyncQueue, processSyncQueueBatch.
    by rewrite !nothing_eligible.
  - unfold processSyncQueueBatch. cbn [default]. by rewrite limited_is_prefix.
Qed.


(** *** Drains in which every delivery is rejected *)

Lemma processItems_all_fail (good : Connector → Prop)
    (items : list SyncQueueItem) (r : SyncResults) (st : State) :
  NoDup (id <$> items) →
  good (salesforce st) →
  (∀ item c, item ∈ items → good c →
     ∃ e c', syncItem item c = (Throw e, c') ∧ good c') →
  good (salesforce (processItems items r st).2)
  ∧ success (processItems items r st).1 = success r
  ∧ failed (processItems items r st).1 = failed r + length items
  ∧ ∃ g : SyncQueueItem → SyncQueueItem,
      syncQueue (processItems items r st).2 = g <$> syncQueue st
      ∧ (∀ row, id (g row) = id row)
      ∧ (∀ row item, item ∈ items → id item = id row →
           attempts (g row) = (attempts item + 1)%Z)
      ∧ (∀ row, id row ∉ id <$> items → g row = row).
Proof.
  revert r st. induction items as [|item rest IH];
    intros r st Hnd Hgood Hfail.
  - cbn [processItems fst snd length].
    split; [done |]. split; [done |]. split; [lia |].
    exists (λ row, row). rewrite list_fmap_id.
    split; [done |]. split; [done |]. split; [| done].
    intros row item Hin. by apply elem_of_nil in Hin.
  - rewrite fmap_cons in Hnd. apply NoDup_cons in Hnd as [Hfresh Hnd].
    cbn [processItems].
    destruct (Hfail item (salesforce st)) as (e & sf & Heq & Hsf);
      [by left | done |].
    rewrite Heq.
    match goal with
    | |- context [processItems rest ?r1 ?st1] =>
        destruct (IH r1 st1) as (Hg & Hs & Hf & g & Htbl & Hid & Hatt & Hrest);
          [done | exact Hsf | intros it c Hit; apply Hfail; by right |]
    end.
    cbn [success failed syncQueue length] in *.
    split; [done |]. split; [done |]. split; [lia |].
    set (u := λ it : SyncQueueItem,
                if decide (id it = id item)
                then mkItem (id it) (type it) (operation it) (data it)
                            (attempts item + 1) (Some (clock (world sf)))
                            (Some (message e)) (createdAt it)
                else it).
    assert (∀ row, id (u row) = id row) as Hu.
    { intros row. unfold u. by case_decide. }
    exists (g ∘ u). split; [| split; [| split]].
    + rewrite Htbl. unfold Db.update. fold u. by rewrite <- list_fmap_compose.
    + intros row. cbn [compose]. by rewrite Hid, Hu.
    + intros row it Hit Hsame. cbn [compose].
      apply elem_of_cons in Hit as [->|Hit].
      * rewrite Hrest.
        -- unfold u. by rewrite decide_True.
        -- by rewrite Hu, <- Hsame.
      * apply Hatt; [done |]. by rewrite Hu.
    + intros row Hrow. rewrite fmap_cons in Hrow.
      apply not_elem_of_cons in Hrow as [Hne Hrow]. cbn [compose].
      assert (u row = row) as ->; [| by apply Hrest].
      unfold u. by rewrite decide_False.
Qed.

(** X17.  When every delivery of a drain is rejected (the ids of the
    table being distinct) no row is removed, every row that had fewer than
    five attempts has exactly one more, and every other row is as it was;
    the result counts one failure for each eligible row and no
    success. *)
Theorem drain_all_rejected (good : Connector → Prop) (st : State) :
  NoDup (id <$> syncQueue st) →
  good (salesforce st) →
  (∀ item c, good c → ∃ e c', syncItem item c = (Throw e, c') ∧ good c') →
  good (salesforce (processSyncQueue st).2)
  ∧ id <$> syncQueue (processSyncQueue st).2 = id <$> syncQueue st
  ∧ attempts <$> syncQueue (processSyncQueue st).2
    = (λ row, if decide (attempts row < 5)%Z
              then (attempts row + 1)%Z else attempts row)
      <$> syncQueue st
  ∧ success (processSyncQueue st).1 = 0
  ∧ failed (processSyncQueue st).1 = total (processSyncQueue st).1.
Proof.
  intros Hnd Hgood Hfail.
  rewrite processSyncQueue_total. unfold processSyncQueue.
  set (items := Db.where_attempts_below 5 None (syncQueue st)).
  destruct (processItems_all_fail good items
              (mkResults (length items) 0 0 (Some [])) st)
    as (Hg & Hs & Hf & g & Htbl & Hid & Hatt & Hrest);
    [by apply eligible_ids_NoDup | done
     | intros it c _; apply Hfail |].
  cbn [success failed] in *.
  split; [done |]. rewrite Htbl, <- !list_fmap_compose.
  split; [apply list_fmap_ext; intros; apply Hid |].
  split; [| split; [exact Hs | exact Hf]].
  apply list_fmap_ext. intros i row Hrow. cbn [compose].
  apply list_elem_of_lookup_2 in Hrow. case_decide as Hlt.
  - apply Hatt; [| done]. unfold items. rewrite eligible_Permutation.
    by apply list_elem_of_filter.
  - rewrite Hrest; [done |]. intros Hin.
    apply list_elem_of_fmap in Hin as (it & Hsame & Hit).
    apply (spent_item_other_id (syncQueue st) None row it);
      [done | done | lia | done | done].
Qed.

Lemma five_rejected_drains_inv (good : Connector → Prop) (n : nat)
    (st : State) :
  NoDup (id <$> syncQueue st) →
  good (salesforce st) →
  (∀ item c, good c → ∃ e c', syncItem item c = (Throw e, c') ∧ good c') →
  Forall (λ row, 0 ≤ attempts row)%Z (syncQueue st) →
  NoDup (id <$> syncQueue (Nat.iter n (λ s, (processSyncQueue s).2) st))
  ∧ good (salesforce (Nat.iter n (λ s, (processSyncQueue s).2) st))
  ∧ id <$> syncQueue (Nat.iter n (λ s, (processSyncQueue s).2) st)
    = id <$> syncQueue st
  ∧ Forall (λ row, Z.of_nat n ≤ attempts row ∨ 5 ≤ attempts row)%Z
           (syncQueue (Nat.iter n (λ s, (processSyncQueue s).2) st)).
Proof.
  intros Hnd Hgood Hfail Hpos. induction n as [|n IH].
  - cbn [Nat.iter nat_rect]. split; [done |]. split; [done |].
    split; [done |].
    eapply Forall_impl; [exact Hpos |]. cbn. intros row. lia.
  - cbn [Nat.iter nat_rect]. destruct IH as (Hnd' & Hgood' & Hids & Hatt).
    fold (Nat.iter n (λ s, (processSyncQueue s).2) st) in *.
    set (stn := Nat.iter n (λ s, (processSyncQueue s).2) st) in *.
    assert (∃ g : SyncQueueItem → SyncQueueItem,
              syncQueue (processSyncQueue stn).2 = g <$> syncQueue stn
              ∧ good (salesforce (processSyncQueue stn).2)
              ∧ (∀ row, id (g row) = id row)
              ∧ (∀ row, row ∈ syncQueue stn →
                   attempts (g row)
                   = if decide (attempts row < 5)%Z
                     then (attempts row + 1)%Z else attempts row))
      as (g & Htbl & Hg & Hid & Hbump).
    { unfold processSyncQueue.
      set (items := Db.where_attempts_below 5 None (syncQueue stn)).
      destruct (processItems_all_fail good items
                  (mkResults (length items) 0 0 (Some [])) stn)
        as (Hg & _ & _ & g & Htbl & Hid & Hatt' & Hrest);
        [by apply eligible_ids_NoDup | done
         | intros it c _; apply Hfail |].
      exists g. repeat split; [done | done | done |].
      intros row Hrow. case_decide as Hlt.
      - apply Hatt'; [| done]. unfold items. rewrite eligible_Permutation.
        by apply list_elem_of_filter.
      - rewrite Hrest; [done |]. intros Hin.
        apply list_elem_of_fmap in Hin as (it & Hsame & Hit).
        apply (spent_item_other_id (syncQueue stn) None row it);
          [done | done | lia | done | done]. }
    rewrite Htbl. split; [| split; [done | split]].
    + rewrite <- list_fmap_compose.
      by rewrite (list_fmap_ext (id ∘ g) id) by (intros; apply Hid).
    + rewrite <- list_fmap_compose, <- Hids.
      apply list_fmap_ext. intros i row _. apply Hid.
    + apply Forall_fmap, Forall_forall. intros row Hrow. cbn [compose].
      rewrite Hbump by done.
      pose proof (proj1 (Forall_forall _ _) Hatt row Hrow) as Hrow'.
      cbn in Hrow'. case_decide; lia.
Qed.

(** X18.  A row becomes permanently failed only over five drains, not
    within one: when every delivery is rejected, five consecutive calls of
    [processSyncQueue] leave every row (of non-negative [attempts], the
    ids distinct) in the table with five attempts or more, so that
    [getQueueStatus] reports nothing pending. *)
Theorem five_rejected_drains (good : Connector → Prop) (st : State) :
  NoDup (id <$> syncQueue st) →
  good (salesforce st) →
  (∀ item c, good c → ∃ e c', syncItem item c = (Throw e, c') ∧ good c') →
  Forall (λ row, 0 ≤ attempts row)%Z (syncQueue st) →
  let st' := Nat.iter 5 (λ s, (processSyncQueue s).2) st in
  id <$> syncQueue st' = id <$> syncQueue st
  ∧ Forall (λ row, 5 ≤ attempts row)%Z (syncQueue st')
  ∧ status_pending (getQueueStatus st') = 0.
Proof.
  intros Hnd Hgood Hfail Hpos st'.
  destruct (five_rejected_drains_inv good 5 st Hnd Hgood Hfail Hpos)
    as (_ & _ & Hids & Hatt).
  fold st' in Hids, Hatt.
  assert (Forall (λ row, 5 ≤ attempts row)%Z (syncQueue st')) as Hall.
  { eapply Forall_impl; [exact Hatt |]. cbn. intros row. lia. }
  split; [done |]. split; [done |].
  rewrite status_pending_eligible.
  pose proof (nothing_eligible (syncQueue st') None Hall) as Hnone.
  by rewrite <- eligible_length, Hnone.
Qed.

(** On a connector that is not connected every delivery is rejected, and
    the connector stays unconnected. *)
Lemma syncItem_unconnected (item : SyncQueueItem) (c : Connector) :
  conn c = false →
  ∃ e c', syncItem item c = (Throw e, c') ∧ conn c' = false.
Proof.
  intros Hconn.
  assert (∀ rest : M string,
    let operation :=
      bind getConn (λ connected,
        if negb connected then throw (Error "Not connected to Salesforce")
        else rest) in
    ∃ e c', retryOperation operation (logged (EvSyncItem item) c)
              = (Throw e, c') ∧ conn c' = false) as Hany.
  { intros rest operation.
    destruct (RestFacts.retry_guard_exhausts operation
                (Error "Not connected to Salesforce")
                (logged (EvSyncItem item) c)) as (Hr & _ & Hc);
      [reflexivity | | done |].
    - intros c0 Hc0. unfold operation.
      by rewrite RestFacts.bind_getConn, Hc0.
    - destruct (retryOperation operation (logged (EvSyncItem item) c))
        as [res c'].
      cbn [fst snd] in *. subst res. by eexists _, _. }
  unfold syncItem, mbind, M_bind. rewrite bind_log.
  destruct (String.eqb (type item) "property");
    [unfold upsertProperty, mbind, M_bind; apply Hany |].
  destruct (String.eqb (type item) "quote");
    [unfold upsertQuote, mbind, M_bind; apply Hany |].
  destruct (String.eqb (type item) "attachment");
    [unfold uploadAttachment, mbind, M_bind; apply Hany |].
  destruct (String.eqb (type item) "bid");
    [unfold upsertQuote, mbind, M_bind; apply Hany |].
  by eexists _, _.
Qed.

End WithWorld.

Import Fixture MoreFixture.

Lemma queueForSync_adds_pending_witness :
  @syncQueue alwaysUp (@queueForSync alwaysUp "bid" "create" ∅ online)
    = queue ++ [mkItem 4 "bid" "create" ∅ 0 None None 172800000]
  ∧ status_pending
      (@getQueueStatus alwaysUp
         (@queueForSync alwaysUp "bid" "create" ∅ online)) = 3.
Proof.
  destruct (@queueForSync_adds_pending alwaysUp "bid" "create" ∅ online)
    as (_ & row & Htbl & _ & _ & _ & _ & _ & Hpending & _).
  split; [reflexivity |]. rewrite Hpending. reflexivity.
Defined.

(** The rejected quote keeps its row, with one attempt more and the
    message. *)
Lemma drain_bookkeeping_witness :
  ∃ t, mkItem 2 "quote" "update" {[ "id" := JsString "local-2" ]} 2
              (Some t) (Some "Price must be positive") 3600000
       ∈ @syncQueue scripted (@processSyncQueue scripted host oneRejected).2.
Proof.
  apply (@drain_bookkeeping scripted host oneRejected quote2
           (Throw fieldRejected)).
  - vm_compute. repeat constructor; set_solver.
  - vm_compute. repeat constructor.
Defined.

Lemma drain_monotone_witness :
  length (@syncQueue scripted (@processSyncQueue scripted host oneRejected).2)
  ≤ 3.
Proof.
  destruct (@drain_monotone scripted host oneRejected) as [Hlen _].
  - vm_compute. repeat constructor; set_solver.
  - exact Hlen.
Defined.

Lemma drain_of_nothing_witness :
  @processSyncQueue scripted host spentOnly
    = (mkResults 0 0 0 (Some []), spentOnly)
  ∧ @processSyncQueueBatch scripted host None spentOnly
    = (mkResults 0 0 0 None, spentOnly).
Proof.
  destruct (@drain_of_nothing scripted host spentOnly None) as [Hall _].
  apply Hall. vm_compute. repeat constructor. discriminate.
Defined.


Lemma unconnected_rejects_all :
  ∀ (item : SyncQueueItem) (c : @Connector scripted),
    @conn scripted c = false →
    ∃ e c', @syncItem scripted host item c = (Throw e, c')
            ∧ @conn scripted c' = false.
Proof. intros item c. apply syncItem_unconnected. Qed.

Lemma drain_all_rejected_witness :
  attempts <$> @syncQueue scripted (@processSyncQueue scripted host stranded).2
  = [1; 2; 5]%Z.
Proof.
  destruct (@drain_all_rejected scripted host
              (λ c, @conn scripted c = false) stranded)
    as (_ & _ & Hatt & _).
  - vm_compute. repeat constructor; set_solver.
  - reflexivity.
  - apply unconnected_rejects_all.
  - rewrite Hatt. reflexivity.
Defined.

Lemma five_rejected_drains_witness :
  status_pending
    (@getQueueStatus scripted
       (Nat.iter 5 (λ s, (@processSyncQueue scripted host s).2) stranded))
  = 0.
Proof.
  destruct (@five_rejected_drains scripted host
              (λ c, @conn scripted c = false) stranded)
    as (_ & _ & Hnone).
  - vm_compute. repeat constructor; set_solver.
  - reflexivity.
  - apply unconnected_rejects_all.
  - vm_compute. repeat constructor; discriminate.
  - exact Hnone.
Defined.

End QueueFacts.

(** ** More on the conflict resolver *)

Module ConflictMore.

Import Conflict.

Section Resolver.

Context {host : DateHost}.

Lemma conflict_has_timestamps (l r : JsRecord) :
  detectConflict l r = true →
  is_Some (l !! "lastModified") ∧ is_Some (r !! "lastModified").
Proof.
  unfold detectConflict, get. intros Hc.
  destruct (l !! "lastModified") as [vl|], (r !! "lastModified") as [vr|];
    cbn in Hc; try done.
  by destruct (truthy vl).
Qed.

(** X19.  A record never conflicts with itself: reconciling a record
    with an identical copy returns it unchanged, [lastModified]
    included. *)
Theorem no_conflict_with_itself (now : Z) (a : JsRecord) :
  detectConflict a a = false
  ∧ syncWithConflictResolution now a a = a.
Proof.
  assert (detectConflict a a = false) as Hno.
  { unfold detectConflict.
    destruct (truthy (get a "lastModified")); [| done]. cbn.
    destruct (getTime (get a "lastModified")) as [t|]; [| done].
    cbn. by rewrite Z.sub_diag. }
  split; [done |]. unfold syncWithConflictResolution. by rewrite Hno.
Qed.

(** X20.  A merge loses no property and invents none: on a conflict the
    properties of the result are those of the local record together with
    those of the remote one. *)
Theorem merge_properties (now : Z) (l r : JsRecord) :
  detectConflict l r = true →
  dom (syncWithConflictResolution now l r) = dom l ∪ dom r.
Proof.
  intros Hc. destruct (conflict_has_timestamps l r Hc) as [Hl Hr].
  unfold syncWithConflictResolution, spread2. rewrite Hc.
  rewrite dom_insert_L, dom_union_L.
  apply elem_of_dom in Hl, Hr. set_solver.
Qed.

End Resolver.

Lemma merge_properties_witness :
  dom (@syncWithConflictResolution Fixture.host 1704110400000
         Fixture.localBid Fixture.remoteBid)
  = dom Fixture.localBid ∪ dom Fixture.remoteBid.
Proof.
  apply (@merge_properties Fixture.host). vm_compute. reflexivity.
Defined.

End ConflictMore.

(** ** Log rotation *)

Module LogRotationFacts.

Import LogRotation.

Section Files.

Variable File : Type.
Variable size : File → Z.
Variable statSync_throws : gmap string File → bool.
Variable unlinkSync_throws : gmap string File → bool.
Variable renameSync_throws : gmap string File → bool.

Lemma names_differ : LOG_FILE ≠ ROTATE_LOG_FILE.
Proof. discriminate. Qed.

(** X21.  [rotateLogs] never loses the current log and touches no other
    file, whichever of its calls the system refuses: afterwards the log is
    where it was, or it is over 1 MiB and has been moved to the rotated
    name, the log name being free.  A log of at most 1 MiB (exactly 1 MiB
    included) and a missing log change nothing.  A log over 1 MiB is
    moved when no call is refused; when the rotated file was removed and
    the renaming is then refused, the log stays and the rotated file is
    gone. *)
Theorem rotateLogs_moves_or_keeps (fs : gmap string File) :
  let fs' := rotateLogs File size statSync_throws unlinkSync_throws
               renameSync_throws fs in
  (∀ f, fs !! LOG_FILE = Some f →
     fs' !! LOG_FILE = Some f
     ∨ ((MAX_LOG_SIZE < size f)%Z
        ∧ fs' !! LOG_FILE = None ∧ fs' !! ROTATE_LOG_FILE = Some f))
  ∧ (∀ f, fs !! LOG_FILE = Some f → (size f ≤ MAX_LOG_SIZE)%Z → fs' = fs)
  ∧ (fs !! LOG_FILE = None → fs' = fs)
  ∧ (∀ name, name ≠ LOG_FILE → name ≠ ROTATE_LOG_FILE →
       fs' !! name = fs !! name)
  ∧ (∀ f, fs !! LOG_FILE = Some f → (MAX_LOG_SIZE < size f)%Z →
       statSync_throws fs = false →
       (is_Some (fs !! ROTATE_LOG_FILE) → unlinkSync_throws fs = false) →
       renameSync_throws (delete ROTATE_LOG_FILE fs) = false →
       fs' = <[ROTATE_LOG_FILE := f]>
               (delete LOG_FILE (delete ROTATE_LOG_FILE fs)))
  ∧ (∀ f, fs !! LOG_FILE = Some f → (MAX_LOG_SIZE < size f)%Z →
       statSync_throws fs = false →
       is_Some (fs !! ROTATE_LOG_FILE) → unlinkSync_throws fs = false →
       renameSync_throws (delete ROTATE_LOG_FILE fs) = true →
       fs' = delete ROTATE_LOG_FILE fs).
Proof.
  pose proof names_differ as Hne. intros fs'.
  split; [| split; [| split; [| split; [| split]]]].
  - intros f Hf. unfold fs', rotateLogs. rewrite Hf.
    destruct (statSync_throws fs); [by left |].
    destruct (MAX_LOG_SIZE <? size f)%Z eqn:Hbig; [| by left].
    apply Z.ltb_lt in Hbig.
    case_decide.
    + destruct (unlinkSync_throws fs); [by left |].
      destruct (renameSync_throws _).
      * left. by rewrite lookup_delete_ne.
      * right. split; [done |].
        rewrite lookup_insert_ne, lookup_delete_eq, lookup_insert_eq by done.
        done.
    + destruct (renameSync_throws fs); [by left |].
      right. split; [done |].
      rewrite lookup_insert_ne, lookup_delete_eq, lookup_insert_eq by done.
      done.
  - intros f Hf Hsmall. unfold fs', rotateLogs. rewrite Hf.
    destruct (statSync_throws fs); [done |].
    by rewrite (proj2 (Z.ltb_ge _ _)).
  - intros Hnone. unfold fs', rotateLogs. by rewrite Hnone.
  - intros name Hlog Hrot. unfold fs', rotateLogs.
    destruct (fs !! LOG_FILE) as [f|]; [| done].
    destruct (statSync_throws fs); [done |].
    destruct (MAX_LOG_SIZE <? size f)%Z; [| done].
    case_decide.
    + destruct (unlinkSync_throws fs); [done |].
      destruct (renameSync_throws _).
      * by rewrite lookup_delete_ne.
      * by rewrite lookup_insert_ne, !lookup_delete_ne.
    + destruct (renameSync_throws fs); [done |].
      by rewrite lookup_insert_ne, lookup_delete_ne.
  - intros f Hf Hbig Hstat Hunlink Hrename. unfold fs', rotateLogs.
    rewrite Hf, Hstat, (proj2 (Z.ltb_lt _ _)) by done.
    case_decide as Hold.
    + by rewrite Hunlink, Hrename.
    + assert (delete ROTATE_LOG_FILE fs = fs) as Hsame.
      { apply delete_id. by apply eq_None_not_Some. }
      rewrite Hsame in Hrename |- *. by rewrite Hrename.
  - intros f Hf Hbig Hstat Hold Hunlink Hrename. unfold fs', rotateLogs.
    rewrite Hf, Hstat, (proj2 (Z.ltb_lt _ _)) by done.
    rewrite decide_True by done. by rewrite Hunlink, Hrename.
Qed.

End Files.

(** With nothing refused the big log is moved over the old one; on a
    directory where no file can be renamed it stays, and the old one has
    been removed all the same. *)
Lemma rotateLogs_moves_or_keeps_witness :
  rotateLogs Z (λ n, n) MoreFixture.permissive MoreFixture.permissive
    MoreFixture.permissive MoreFixture.bigLog
  = {[ ROTATE_LOG_FILE := 2000000%Z; "summary.json" := 10%Z ]}
  ∧ rotateLogs Z (λ n, n) MoreFixture.permissive MoreFixture.permissive
      MoreFixture.readOnly MoreFixture.bigLog
    = {[ LOG_FILE := 2000000%Z; "summary.json" := 10%Z ]}.
Proof.
  split.
  - destruct (rotateLogs_moves_or_keeps Z (λ n, n) MoreFixture.permissive
                MoreFixture.permissive MoreFixture.permissive
                MoreFixture.bigLog) as (_ & _ & _ & _ & Hmoved & _).
    rewrite (Hmoved 2000000%Z);
      [| reflexivity | vm_compute; reflexivity | reflexivity
       | reflexivity | reflexivity].
    apply map_eq. intros name. vm_compute. reflexivity.
  - destruct (rotateLogs_moves_or_keeps Z (λ n, n) MoreFixture.permissive
                MoreFixture.permissive MoreFixture.readOnly
                MoreFixture.bigLog) as (_ & _ & _ & _ & _ & Hstuck).
    rewrite (Hstuck 2000000%Z);
      [| reflexivity | vm_compute; reflexivity | reflexivity
       | by eexists | reflexivity | reflexivity].
    apply map_eq. intros name. vm_compute. reflexivity.
Defined.

End LogRotationFacts.
